(** * osecure: OAuth2 session guard and permission cache

    A shallow embedding of [osecure.go] (the revision with the cached
    permission list) and the properties of its session and permission
    cache logic.

    The Go code talks to four collaborators that live outside the
    package: the wall clock ([time.Now]), the gorilla cookie store, the
    oauth2 client (authorisation URL, code exchange, authenticated GET)
    and the JSON decoder.  Their answers are collected in an [Env]
    record; every call to them is logged in the [trace] of the [World]
    so that "a cookie was written" or "one remote fetch happened" are
    statements about that trace. *)

From Stdlib Require Import ZArith String List Lia Bool.
From Stdlib Require Import Sorting.Sorted Sorting.Permutation.
From stdpp Require Import base option list gmap strings.

Local Open Scope string_scope.
Local Open Scope list_scope.
Local Open Scope Z_scope.

(* ===================================================================== *)
(** ** Time *)
(* ===================================================================== *)

Module time.

(** A [time.Time] is an instant, counted in nanoseconds from the zero
    Time (January 1, year 1, 00:00:00 UTC). *)
Definition Time := Z.

(** [time.Time{}] *)
Definition zero : Time := 0.

(** A [time.Duration] is an int64 nanosecond count. *)
Definition Duration := Z.

Definition Second : Duration := 1000000000.

Definition wrap64 (z : Z) : Z := (z + 2 ^ 63) mod 2 ^ 64 - 2 ^ 63.

(** [time.Duration(n) * time.Second], an int64 product. *)
Definition seconds (n : Z) : Duration := wrap64 (n * Second).

(** [t.Add(d)] *)
Definition Add (t : Time) (d : Duration) : Time := t + d.

(** [t.Before(u)] *)
Definition Before (t u : Time) : bool := t <? u.

End time.

(* ===================================================================== *)
(** ** Data model *)
(* ===================================================================== *)

Definition error := string.

(** [oauth2.Token] *)
Record Token := mkToken {
  AccessToken : string;
  TokenType : string;
  RefreshToken : string;
  Expiry : time.Time
}.

(** [type AuthSessionData struct] *)
Record AuthSessionData := mkAuthSessionData {
  Token_ : Token;
  ExpireAt : time.Time;
  Permissions : list string;
  PermExpireAt : time.Time
}.

(** The package-level tunables [SessionExpireTime] and
    [PermissionExpireTime] (Go [int] variables, in seconds). *)
Record Tunables := mkTunables {
  SessionExpireTime : Z;
  PermissionExpireTime : Z
}.

Definition defaultTunables : Tunables :=
  {| SessionExpireTime := 86400; PermissionExpireTime := 600 |}.

(** A [*AuthSessionData] is an address in the heap of records. *)
Definition loc := nat.

(** What a session's [Values] map can hold under the key it is asked
    for: the two types registered with gob, or anything else. *)
Inductive Value :=
| VAuthSessionData (p : loc)
| VTime (t : time.Time)
| VOther (s : string).

(** A value as it is serialised into the cookie: pointers resolved. *)
Inductive Dyn :=
| DAuthSessionData (d : AuthSessionData)
| DTime (t : time.Time)
| DOther (s : string).

(** [sessions.Session]; only its [Values] matter here. *)
Record Session := mkSession { Values : gmap string Value }.

(** The cookie a request carries under a given name, as the cookie
    store sees it: it either fails to decode (bad signature, failed
    decryption, malformed payload) or decodes to a [Values] map whose
    records the decoder has placed in the heap. *)
Inductive Cookie :=
| CookieUndecodable (e : error)
| CookieDecoded (vals : gmap string Value).

Record Request := mkRequest {
  RequestURI : string;
  Query : gmap string string;
  Cookies : gmap string Cookie
}.

(** [q.Get(key)]: the empty string when the parameter is not there. *)
Definition Query_Get (r : Request) (key : string) : string :=
  default "" (Query r !! key).

(** [*http.Response], reduced to its body. *)
Record Response := mkResponse { Body : string }.

(** [type OAuthSession struct]: the cookie store and the oauth2 client
    are external and appear in [Env]. *)
Record OAuthSession := mkOAuthSession {
  name : string;
  permissionsURL : string
}.

(** The effects the code has on its collaborators, in program order. *)
Inductive Event :=
| EvGet (url : string) (tok : Token)
| EvExchange (code : string)
| EvSave (session_name : string) (payload : gmap string Dyn)
| EvRedirect (url : string) (status : Z)
| EvError (msg : string) (status : Z)
| EvServeHTTP.

(** The answers of the collaborators. [clock n] is what the [n]-th call
    of [time.Now] returns and [remote n] what the [n]-th authenticated
    GET returns. *)
Record Env := mkEnv {
  clock : nat -> time.Time;
  AuthCodeURL : string -> string;
  Exchange : string -> error + Token;
  remote : nat -> error + Response;
  json_Decode : string -> error + list string
}.

(** The state one request handling runs in. [registry] is gorilla's
    per-request registry of sessions: a session (and the error of its
    decoding) is created on the first [Get] and handed out again on
    later ones. *)
Record World := mkWorld {
  heap : gmap loc AuthSessionData;
  registry : gmap string (Session * option error);
  ticks : nat;
  gets : nat;
  trace : list Event
}.

(* ===================================================================== *)
(** ** A state monad with panics *)
(* ===================================================================== *)

Inductive Res (A : Type) :=
| Ok (a : A)
| Panic (e : error).
Arguments Ok {A} a.
Arguments Panic {A} e.

Definition M (A : Type) : Type := World -> Res A * World.

Definition ret {A} (a : A) : M A := fun w => (Ok a, w).

Definition panic {A} (e : error) : M A := fun w => (Panic e, w).

Definition bind {A B} (c : M A) (k : A -> M B) : M B :=
  fun w =>
    match c w with
    | (Ok a, w') => k a w'
    | (Panic e, w') => (Panic e, w')
    end.

Notation "'let*' x ':=' c 'in' k" := (bind c (fun x => k))
  (at level 10, x pattern, c at level 100, k at level 200).

Definition emit (e : Event) : M unit :=
  fun w => (Ok tt, {| heap := heap w; registry := registry w; ticks := ticks w;
                      gets := gets w; trace := trace w ++ [e] |}).

Definition nil_deref : error :=
  "runtime error: invalid memory address or nil pointer dereference".

(** [*p] *)
Definition load (p : loc) : M AuthSessionData :=
  fun w => match heap w !! p with
           | Some d => (Ok d, w)
           | None => (Panic nil_deref, w)
           end.

(** [*p = d] *)
Definition store (p : loc) (d : AuthSessionData) : M unit :=
  fun w => match heap w !! p with
           | Some _ => (Ok tt, {| heap := <[p := d]> (heap w); registry := registry w;
                                  ticks := ticks w; gets := gets w; trace := trace w |})
           | None => (Panic nil_deref, w)
           end.

(** [&AuthSessionData{...}] *)
Definition alloc (d : AuthSessionData) : M loc :=
  fun w => let p := fresh (dom (heap w)) in
           (Ok p, {| heap := <[p := d]> (heap w); registry := registry w;
                     ticks := ticks w; gets := gets w; trace := trace w |}).

Definition time_Now (env : Env) : M time.Time :=
  fun w => (Ok (clock env (ticks w)),
            {| heap := heap w; registry := registry w; ticks := S (ticks w);
               gets := gets w; trace := trace w |}).

(* ===================================================================== *)
(** ** Package [sort] on strings *)
(* ===================================================================== *)

Module sort.

(** Go's [a <= b] on strings: bytewise lexicographic order. *)
Definition le (a b : string) : Prop := String.leb a b = true.

Fixpoint insert (x : string) (l : list string) : list string :=
  match l with
  | [] => [x]
  | y :: l' => if String.leb x y then x :: y :: l' else y :: insert x l'
  end.

(** [sort.Strings(a)]: [a] put in increasing order. Which algorithm
    does it is not observable on strings, because equal strings are
    indistinguishable; insertion sort stands for it. *)
Fixpoint Strings (a : list string) : list string :=
  match a with
  | [] => []
  | x :: a' => insert x (Strings a')
  end.

(** The loop of [sort.Search(n, f)]:
    [for i < j { h := int(uint(i+j) >> 1); if !f(h) { i = h + 1 } else { j = h } }].
    [f] fails ([None]) where the Go closure would index out of range.
    Each round shrinks [j - i], so [n] rounds are enough for [Search];
    [Search_spec] below shows that neither failure nor a lack of rounds
    occurs. *)
Fixpoint Search_loop (fuel : nat) (f : nat -> option bool) (i j : nat) : option nat :=
  match fuel with
  | O => if (i <? j)%nat then None else Some i
  | S fuel' =>
      if (i <? j)%nat then
        let h := ((i + j) / 2)%nat in
        match f h with
        | None => None
        | Some false => Search_loop fuel' f (h + 1)%nat j
        | Some true => Search_loop fuel' f i h
        end
      else Some i
  end.

Definition Search (n : nat) (f : nat -> option bool) : option nat :=
  Search_loop n f 0%nat n.

(** [sort.SearchStrings(a, x)] is
    [Search(len(a), func(i int) bool { return a[i] >= x })]. *)
Definition SearchStrings (a : list string) (x : string) : option nat :=
  Search (length a) (fun i => match a !! i with
                              | Some s => Some (String.leb x s)
                              | None => None
                              end).

End sort.

(* ===================================================================== *)
(** ** The cookie store (gorilla/sessions), at its interface *)
(* ===================================================================== *)

(** [CookieStore.New]: a session is always returned; without a cookie it
    is new and empty, with a cookie that does not decode it is new and
    empty and comes with the decoding error. *)
Definition CookieStore_New (r : Request) (nm : string) : Session * option error :=
  match Cookies r !! nm with
  | None => (mkSession ∅, None)
  | Some (CookieUndecodable e) => (mkSession ∅, Some e)
  | Some (CookieDecoded vals) => (mkSession vals, None)
  end.

Definition set_registry (nm : string) (info : Session * option error) : M unit :=
  fun w => (Ok tt, {| heap := heap w; registry := <[nm := info]> (registry w);
                      ticks := ticks w; gets := gets w; trace := trace w |}).

(** [cookieStore.Get(r, name)]: the registered session of that name, or
    a new one, which is then registered together with its error. *)
Definition cookieStore_Get (r : Request) (nm : string) : M (Session * option error) :=
  fun w => match registry w !! nm with
           | Some info => (Ok info, w)
           | None => let info := CookieStore_New r nm in
                     (let* _ := set_registry nm info in ret info) w
           end.

(** What the codec serialises: the values with their records read from
    the heap. *)
Definition snapshot (h : gmap loc AuthSessionData) (vals : gmap string Value)
  : gmap string Dyn :=
  omap (fun v => match v with
                 | VAuthSessionData p => DAuthSessionData <$> h !! p
                 | VTime t => Some (DTime t)
                 | VOther s => Some (DOther s)
                 end) vals.

(** [session.Save(r, w)]: the session's values are encoded and set as
    the response cookie. The source discards the error it returns. *)
Definition session_Save (nm : string) (sess : Session) : M unit :=
  fun w => emit (EvSave nm (snapshot (heap w) (Values sess))) w.

(** [http.Redirect(w, r, url, code)] and [http.Error(w, msg, code)] *)
Definition http_Redirect (url : string) (code : Z) : M unit := emit (EvRedirect url code).
Definition http_Error (msg : string) (code : Z) : M unit := emit (EvError msg code).

(* ===================================================================== *)
(** ** osecure.go *)
(* ===================================================================== *)

Section Osecure.

Variable env : Env.
Variable tun : Tunables.
Variable s : OAuthSession.

(** [oauth2.NewClient(...).Get(url)] with the token as bearer. *)
Definition client_Get (tok : Token) (url : string) : M (error + Response) :=
  fun w => (Ok (remote env (gets w)),
            {| heap := heap w; registry := registry w; ticks := ticks w;
               gets := S (gets w); trace := trace w ++ [EvGet url tok] |}).

(** [s.client.Exchange(oauth2.NoContext, code)] *)
Definition client_Exchange (code : string) : M (error + Token) :=
  let* _ := emit (EvExchange code) in ret (Exchange env code).

Definition NewAuthSessionData (token : Token) : M loc :=
  let* now := time_Now env in
  alloc {| Token_ := token;
           ExpireAt := time.Add now (time.seconds (SessionExpireTime tun));
           Permissions := [];
           PermExpireAt := time.zero |}.

Definition IsExpired (data : loc) : M bool :=
  let* d := load data in
  let* now := time_Now env in
  ret (time.Before (ExpireAt d) now).

Definition IsPermExpired (data : loc) : M bool :=
  let* d := load data in
  let* now := time_Now env in
  ret (time.Before (PermExpireAt d) now).

Definition getAuthSessionDataFromRequest (r : Request) : M (option loc) :=
  let* (session, err) := cookieStore_Get r (name s) in
  match err with
  | Some e => panic e
  | None =>
      match Values session !! "data" with
      | None => ret None
      | Some (VAuthSessionData data) => ret (Some data)
      | Some _ => ret None
      end
  end.

Definition startOAuth (r : Request) : M unit :=
  http_Redirect (AuthCodeURL env (RequestURI r)) 303.

Definition isAuthorized (r : Request) : M bool :=
  let* data := getAuthSessionDataFromRequest r in
  match data with
  | None => ret false
  | Some p =>
      let* expired := IsExpired p in
      if expired then ret false else ret true
  end.

(** The handler [Secured(h)] returns; running [h.ServeHTTP] is the
    event [EvServeHTTP]. *)
Definition Secured (r : Request) : M unit :=
  let* ok := isAuthorized r in
  if negb ok then startOAuth r
  else emit EvServeHTTP.

Definition issueAuthCookie (r : Request) (data : loc) : M unit :=
  let* (session, err) := cookieStore_Get r (name s) in
  match err with
  | Some e => panic e
  | None =>
      let session' := {| Values := <["data" := VAuthSessionData data]> (Values session) |} in
      let* _ := set_registry (name s) (session', None) in
      session_Save (name s) session'
  end.

Definition ensurePermUpdated (r : Request) (data : loc) : M unit :=
  let* expired := IsPermExpired data in
  if negb expired then ret tt
  else
    let* d := load data in
    let* resp := client_Get (Token_ d) (permissionsURL s) in
    match resp with
    | inl err => panic err
    | inr resp =>
        match json_Decode env (Body resp) with
        | inl err => panic err
        | inr result_Permissions =>
            let* d := load data in
            let* _ := store data {| Token_ := Token_ d; ExpireAt := ExpireAt d;
                          Permissions := result_Permissions;
                          PermExpireAt := PermExpireAt d |} in
            let* now := time_Now env in
            let* d := load data in
            let* _ := store data {| Token_ := Token_ d; ExpireAt := ExpireAt d;
                          Permissions := Permissions d;
                          PermExpireAt :=
                            time.Add now (time.seconds (PermissionExpireTime tun)) |} in
            let* d := load data in
            let* _ := store data {| Token_ := Token_ d; ExpireAt := ExpireAt d;
                          Permissions := sort.Strings (Permissions d);
                          PermExpireAt := PermExpireAt d |} in
            issueAuthCookie r data
        end
    end.

Definition invalid_session : error := "invalid session".

(** The Go result [([]string, error)] is [inr perms] for [(perms, nil)]
    and [inl e] for [(nil, e)]. *)
Definition GetPermissions (r : Request) : M (error + list string) :=
  let* data := getAuthSessionDataFromRequest r in
  match data with
  | None => ret (inl invalid_session)
  | Some p =>
      let* expired := IsExpired p in
      if expired then ret (inl invalid_session)
      else
        let* _ := ensurePermUpdated r p in
        let* d := load p in
        ret (inr (Permissions d))
  end.

Definition index_out_of_range : error := "runtime error: index out of range".

Definition HasPermission (r : Request) (permission : string) : M bool :=
  let* data := getAuthSessionDataFromRequest r in
  match data with
  | None => ret false
  | Some p =>
      let* expired := IsExpired p in
      if expired then ret false
      else
        let* _ := ensurePermUpdated r p in
        let* d := load p in
        let perms := Permissions d in
        match sort.SearchStrings perms permission with
        | None => panic index_out_of_range
        | Some id =>
            if (id <? length perms)%nat then
              match perms !! id with
              | Some x => ret (String.eqb x permission)
              | None => panic index_out_of_range
              end
            else ret false
        end
  end.

Definition CallbackView (r : Request) : M unit :=
  let code := Query_Get r "code" in
  let cont := Query_Get r "state" in
  let* jr := client_Exchange code in
  match jr with
  | inl err => http_Error err 400
  | inr jr =>
      let* data := NewAuthSessionData jr in
      let* _ := issueAuthCookie r data in
      http_Redirect cont 303
  end.

End Osecure.

(* ===================================================================== *)
(** ** Vocabulary for the statements *)
(* ===================================================================== *)

Definition result_of {A} (c : M A) (w : World) : Res A := (c w).1.

(** The events a run adds to the trace, and the remote GETs it makes. *)
Definition events_of {A} (c : M A) (w : World) : list Event :=
  drop (length (trace w)) (trace (c w).2).

Definition fetches_of {A} (c : M A) (w : World) : nat :=
  (gets (c w).2 - gets w)%nat.

(** What [cookieStore.Get(r, nm)] answers in world [w]. *)
Definition session_of (r : Request) (nm : string) (w : World) : Session * option error :=
  match registry w !! nm with
  | Some info => info
  | None => CookieStore_New r nm
  end.

(** The record pointer a session holds under ["data"], if it holds one. *)
Definition data_of (sess : Session) : option loc :=
  match Values sess !! "data" with
  | Some (VAuthSessionData p) => Some p
  | _ => None
  end.

(** The record [NewAuthSessionData] builds at clock reading [now]. *)
Definition new_record (tun : Tunables) (token : Token) (now : time.Time) : AuthSessionData :=
  {| Token_ := token;
     ExpireAt := time.Add now (time.seconds (SessionExpireTime tun));
     Permissions := [];
     PermExpireAt := time.zero |}.

(** The record [ensurePermUpdated] leaves behind after a fetch that
    returned [perms] and a clock reading [now]. *)
Definition refreshed (tun : Tunables) (now : time.Time) (perms : list string)
    (d : AuthSessionData) : AuthSessionData :=
  {| Token_ := Token_ d;
     ExpireAt := ExpireAt d;
     Permissions := sort.Strings perms;
     PermExpireAt := time.Add now (time.seconds (PermissionExpireTime tun)) |}.

(** The world after the session was read and found unexpired. *)
Definition checked (s : OAuthSession) (r : Request) (w : World) : World :=
  mkWorld (heap w) (<[name s := session_of r (name s) w]> (registry w))
          (S (ticks w)) (gets w) (trace w).

(** The world after that and after the cache was found fresh. *)
Definition fresh_world (s : OAuthSession) (r : Request) (w : World) : World :=
  mkWorld (heap w) (registry (checked s r w)) (S (S (ticks w))) (gets w) (trace w).

(** The world after that and after a refresh of the record [d] at [p]
    that fetched [perms]. *)
Definition refreshed_world (env : Env) (tun : Tunables) (s : OAuthSession) (r : Request)
    (w : World) (p : loc) (d : AuthSessionData) (perms : list string) : World :=
  let h := <[p := refreshed tun (clock env (S (S (ticks w)))) perms d]> (heap w) in
  let vals := <["data" := VAuthSessionData p]> (Values (session_of r (name s) w).1) in
  mkWorld h (<[name s := (mkSession vals, None)]> (registry w))
          (S (S (S (ticks w)))) (S (gets w))
          (trace w ++ [EvGet (permissionsURL s) (Token_ d);
                       EvSave (name s) (snapshot h vals)]).

(* ===================================================================== *)
(** ** Sample requests and worlds *)
(* ===================================================================== *)

Module Ex.

Definition tok : Token := mkToken "at" "Bearer" "" 0.

(** A clock that stands still at [now]; every code but ["good"] is
    rejected; the permissions endpoint answers [perms]. *)
Definition env (now : time.Time) (perms : error + list string) : Env :=
  {| clock := fun _ => now;
     AuthCodeURL := fun st => String.append "https://auth.example/authorize?state=" st;
     Exchange := fun c => if String.eqb c "good" then inr tok
                          else inl "oauth2: cannot fetch token";
     remote := fun _ => inr (mkResponse "body");
     json_Decode := fun _ => perms |}.

(** The same with a permissions endpoint that cannot be reached. *)
Definition env_down (now : time.Time) : Env :=
  {| clock := fun _ => now;
     AuthCodeURL := fun st => String.append "https://auth.example/authorize?state=" st;
     Exchange := fun c => inl "oauth2: cannot fetch token";
     remote := fun _ => inl "dial tcp: connection refused";
     json_Decode := fun _ => inr [] |}.

Definition s : OAuthSession := mkOAuthSession "sess" "https://auth.example/permissions".

Definition rec (expireAt : time.Time) (perms : list string) (permExpireAt : time.Time)
  : AuthSessionData :=
  mkAuthSessionData tok expireAt perms permExpireAt.

Definition query : gmap string string := <["code" := "good"]> (<["state" := "/back"]> ∅).

(** A request whose session cookie decodes to a record at address 0. *)
Definition req : Request :=
  mkRequest "/x?y=1" query
    (<["sess" := CookieDecoded (<["data" := VAuthSessionData 0%nat]> ∅)]> ∅).

(** A request without cookies, one with a cookie that does not decode,
    and one whose cookie holds a time where the record should be. *)
Definition req_nocookie : Request := mkRequest "/x?y=1" query ∅.
Definition req_tampered : Request :=
  mkRequest "/x?y=1" query
    (<["sess" := CookieUndecodable "securecookie: the value is not valid"]> ∅).
Definition req_wrongtype : Request :=
  mkRequest "/x?y=1" query (<["sess" := CookieDecoded (<["data" := VTime 5]> ∅)]> ∅).
Definition req_badcode : Request :=
  mkRequest "/cb" (<["code" := "bad"]> (<["state" := "/back"]> ∅))
    (<["sess" := CookieDecoded (<["data" := VAuthSessionData 0%nat]> ∅)]> ∅).

(** The world at the start of a request, with record [d] at address 0. *)
Definition w (d : AuthSessionData) : World := mkWorld (<[0%nat := d]> ∅) ∅ 0 0 [].

End Ex.

(* ===================================================================== *)
(** ** How a permission query ends *)
(* ===================================================================== *)

(** The world after the session was asked for and gave no usable record. *)
Definition unread_world (s : OAuthSession) (r : Request) (w : World) : World :=
  mkWorld (heap w) (<[name s := session_of r (name s) w]> (registry w))
          (ticks w) (gets w) (trace w).

(** The world after the session was found valid, the cache of its record
    [d] stale, and the fetch (or the decoding of its body) failed. *)
Definition failed_world (s : OAuthSession) (r : Request) (w : World)
    (d : AuthSessionData) : World :=
  mkWorld (heap w) (registry (checked s r w)) (S (S (ticks w))) (S (gets w))
          (trace w ++ [EvGet (permissionsURL s) (Token_ d)]).

Definition is_Ok {A} (res : Res A) : bool :=
  match res with
  | Ok _ => true
  | Panic _ => false
  end.

(** What [HasPermission] computes from the list it ends up with. *)
Definition search_answer (perms : list string) (permission : string) : Res bool :=
  match sort.SearchStrings perms permission with
  | None => Panic index_out_of_range
  | Some id =>
      if (id <? length perms)%nat then
        match perms !! id with
        | Some x => Ok (String.eqb x permission)
        | None => Panic index_out_of_range
        end
      else Ok false
  end.

(** The seven ways [GetPermissions] and [HasPermission] can run, with the
    result and the world each leaves. [no] is the answer without a valid
    session and [answer] the one computed from the record's list. *)
Inductive query_run {A} (env : Env) (tun : Tunables) (s : OAuthSession) (r : Request)
    (no : A) (answer : list string -> Res A) (w : World) : Res A * World -> Prop :=
| query_store_error (e : error) :
    (session_of r (name s) w).2 = Some e ->
    query_run env tun s r no answer w (Panic e, unread_world s r w)
| query_no_record :
    (session_of r (name s) w).2 = None ->
    data_of (session_of r (name s) w).1 = None ->
    query_run env tun s r no answer w (Ok no, unread_world s r w)
| query_dangling (p : loc) :
    (session_of r (name s) w).2 = None ->
    data_of (session_of r (name s) w).1 = Some p ->
    heap w !! p = None ->
    query_run env tun s r no answer w (Panic nil_deref, unread_world s r w)
| query_expired (p : loc) (d : AuthSessionData) :
    (session_of r (name s) w).2 = None ->
    data_of (session_of r (name s) w).1 = Some p ->
    heap w !! p = Some d ->
    ExpireAt d < clock env (ticks w) ->
    query_run env tun s r no answer w (Ok no, checked s r w)
| query_fresh (p : loc) (d : AuthSessionData) :
    (session_of r (name s) w).2 = None ->
    data_of (session_of r (name s) w).1 = Some p ->
    heap w !! p = Some d ->
    clock env (ticks w) <= ExpireAt d ->
    clock env (S (ticks w)) <= PermExpireAt d ->
    query_run env tun s r no answer w (answer (Permissions d), fresh_world s r w)
| query_failed (p : loc) (d : AuthSessionData) (e : error) :
    (session_of r (name s) w).2 = None ->
    data_of (session_of r (name s) w).1 = Some p ->
    heap w !! p = Some d ->
    clock env (ticks w) <= ExpireAt d ->
    PermExpireAt d < clock env (S (ticks w)) ->
    (remote env (gets w) = inl e \/
     exists resp : Response,
       remote env (gets w) = inr resp /\ json_Decode env (Body resp) = inl e) ->
    query_run env tun s r no answer w (Panic e, failed_world s r w d)
| query_refreshed (p : loc) (d : AuthSessionData) (resp : Response) (perms : list string) :
    (session_of r (name s) w).2 = None ->
    data_of (session_of r (name s) w).1 = Some p ->
    heap w !! p = Some d ->
    clock env (ticks w) <= ExpireAt d ->
    PermExpireAt d < clock env (S (ticks w)) ->
    remote env (gets w) = inr resp ->
    json_Decode env (Body resp) = inr perms ->
    query_run env tun s r no answer w
      (answer (sort.Strings perms), refreshed_world env tun s r w p d perms).

(** Every record has its permissions in ascending order. *)
Definition records_sorted (h : gmap loc AuthSessionData) : Prop :=
  forall (p : loc) (d : AuthSessionData), h !! p = Some d -> Sorted sort.le (Permissions d).

(** The changes the entry points make to the records: none, the refresh
    of one record, or the allocation of a new one. *)
Definition record_change (tun : Tunables) (h h' : gmap loc AuthSessionData) : Prop :=
  h' = h \/
  (exists (p : loc) (d : AuthSessionData) (now : time.Time) (perms : list string),
     h !! p = Some d /\ h' = <[p := refreshed tun now perms d]> h) \/
  (exists (token : Token) (now : time.Time),
     h' = <[fresh (dom h) := new_record tun token now]> h).

(** The record the session read yields in [w], if it yields one. *)
Definition session_record (s : OAuthSession) (r : Request) (w : World)
  : option AuthSessionData :=
  match result_of (getAuthSessionDataFromRequest s r) w with
  | Ok (Some p) => heap w !! p
  | _ => None
  end.

(** After a run that ended in [w'], the session read yields a record
    with the token and the [ExpireAt] of [d], the record it yielded
    before. *)
Definition session_kept (s : OAuthSession) (r : Request) (d : AuthSessionData)
    (w' : World) : Prop :=
  exists d' : AuthSessionData,
    session_record s r w' = Some d' /\ Token_ d' = Token_ d /\ ExpireAt d' = ExpireAt d.

(** A run saved a cookie. *)
Definition saves {A} (c : M A) (w : World) : Prop :=
  exists (nm : string) (payload : gmap string Dyn), EvSave nm payload ∈ events_of c w.

(* ===================================================================== *)
(** ** The first revision of osecure.go *)
(* ===================================================================== *)

(** The file starts with an earlier revision of the package (the record
    holds the time of issue, the permission queries ask the remote
    service on every call). It is embedded here on its own state, with
    the requests, sessions and cookies of above. *)
Module V1.

(** [type AuthSessionData struct] *)
Record AuthSessionData := mkAuthSessionData {
  Token_ : Token;
  IssuedAt : time.Time
}.

(** [type OAuthSession struct], with the two URLs of its [config]. *)
Record OAuthSession := mkOAuthSession {
  name : string;
  PermissionsURL : string;
  HasPermissionURL : string
}.

Inductive Dyn :=
| DAuthSessionData (d : AuthSessionData)
| DTime (t : time.Time)
| DOther (s : string).

Inductive Event :=
| EvGet (url : string) (tok : Token)
| EvExchange (code : string)
| EvSave (session_name : string) (payload : gmap string Dyn)
| EvRedirect (url : string) (status : Z)
| EvError (msg : string) (status : Z)
| EvServeHTTP.

(** The collaborators. [url_Parse u] is the error of [url.Parse(u)], if
    any; [url_with_permission u x] is the URL [u] with its query
    parameter [permission] set to [x], as a string; [json_read body] is
    the error of reading the next JSON value from [body], if any. *)
Record Env := mkEnv {
  clock : nat -> time.Time;
  AuthCodeURL : string -> string;
  Exchange : string -> error + Token;
  remote : nat -> error + Response;
  url_Parse : string -> option error;
  url_with_permission : string -> string -> string;
  json_read : string -> option error
}.

Record World := mkWorld {
  heap : gmap loc AuthSessionData;
  registry : gmap string (Session * option error);
  ticks : nat;
  gets : nat;
  trace : list Event
}.

Definition M (A : Type) : Type := World -> Res A * World.

Definition ret {A} (a : A) : M A := fun w => (Ok a, w).

Definition panic {A} (e : error) : M A := fun w => (Panic e, w).

Definition bind {A B} (c : M A) (k : A -> M B) : M B :=
  fun w =>
    match c w with
    | (Ok a, w') => k a w'
    | (Panic e, w') => (Panic e, w')
    end.

Declare Scope v1_scope.
Notation "'let*' x ':=' c 'in' k" := (bind c (fun x => k))
  (at level 10, x pattern, c at level 100, k at level 200) : v1_scope.
#[local] Open Scope v1_scope.

Definition emit (e : Event) : M unit :=
  fun w => (Ok tt, mkWorld (heap w) (registry w) (ticks w) (gets w) (trace w ++ [e])).

Definition load (p : loc) : M AuthSessionData :=
  fun w => match heap w !! p with
           | Some d => (Ok d, w)
           | None => (Panic nil_deref, w)
           end.

Definition alloc (d : AuthSessionData) : M loc :=
  fun w => let p := fresh (dom (heap w)) in
           (Ok p, mkWorld (<[p := d]> (heap w)) (registry w) (ticks w) (gets w) (trace w)).

Definition time_Now (env : Env) : M time.Time :=
  fun w => (Ok (clock env (ticks w)),
            mkWorld (heap w) (registry w) (S (ticks w)) (gets w) (trace w)).

Definition set_registry (nm : string) (info : Session * option error) : M unit :=
  fun w => (Ok tt, mkWorld (heap w) (<[nm := info]> (registry w))
                           (ticks w) (gets w) (trace w)).

Definition cookieStore_Get (r : Request) (nm : string) : M (Session * option error) :=
  fun w => match registry w !! nm with
           | Some info => (Ok info, w)
           | None => let info := CookieStore_New r nm in
                     (let* _ := set_registry nm info in ret info) w
           end.

Definition snapshot (h : gmap loc AuthSessionData) (vals : gmap string Value)
  : gmap string Dyn :=
  omap (fun v => match v with
                 | VAuthSessionData p => DAuthSessionData <$> h !! p
                 | VTime t => Some (DTime t)
                 | VOther s => Some (DOther s)
                 end) vals.

Definition session_Save (nm : string) (sess : Session) : M unit :=
  fun w => emit (EvSave nm (snapshot (heap w) (Values sess))) w.

Definition http_Redirect (url : string) (code : Z) : M unit := emit (EvRedirect url code).
Definition http_Error (msg : string) (code : Z) : M unit := emit (EvError msg code).

Definition invalid_unmarshal : error := "json: Unmarshal(non-pointer)".

(** [json.NewDecoder(body).Decode(v)] for a [v] that is not a pointer,
    as both queries call it ([Decode(result)]): the decoder reads the
    next value and then refuses the target, so that an error is returned
    in every case. *)
Definition json_Decode_value (env : Env) (body : string) : option error :=
  Some (match json_read env body with
        | Some e => e
        | None => invalid_unmarshal
        end).

Section Osecure.

Variable env : Env.
Variable s : OAuthSession.

Definition client_Get (tok : Token) (url : string) : M (error + Response) :=
  fun w => (Ok (remote env (gets w)),
            mkWorld (heap w) (registry w) (ticks w) (S (gets w))
                    (trace w ++ [EvGet url tok])).

Definition client_Exchange (code : string) : M (error + Token) :=
  let* _ := emit (EvExchange code) in ret (Exchange env code).

Definition NewAuthSessionData (token : Token) : M loc :=
  let* now := time_Now env in
  alloc {| Token_ := token; IssuedAt := now |}.

Definition IsExpired (data : loc) : M bool :=
  let* d := load data in
  let expiresAt := time.Add (IssuedAt d) (86400 * time.Second) in
  let* now := time_Now env in
  ret (time.Before expiresAt now).

Definition getAuthSessionDataFromRequest (r : Request) : M (option loc) :=
  let* (session, err) := cookieStore_Get r (name s) in
  match err with
  | Some e => panic e
  | None =>
      match Values session !! "data" with
      | None => ret None
      | Some (VAuthSessionData data) => ret (Some data)
      | Some _ => ret None
      end
  end.

Definition startOAuth (r : Request) : M unit :=
  http_Redirect (AuthCodeURL env (RequestURI r)) 303.

Definition isAuthorized (r : Request) : M bool :=
  let* data := getAuthSessionDataFromRequest r in
  match data with
  | None => ret false
  | Some p =>
      let* expired := IsExpired p in
      if expired then ret false else ret true
  end.

Definition Secured (r : Request) : M unit :=
  let* ok := isAuthorized r in
  if negb ok then startOAuth r
  else emit EvServeHTTP.

Definition GetPermissions (r : Request) : M (error + list string) :=
  let* data := getAuthSessionDataFromRequest r in
  match data with
  | None => ret (inl invalid_session)
  | Some p =>
      let* expired := IsExpired p in
      if expired then ret (inl invalid_session)
      else
        let* d := load p in
        let* resp := client_Get (Token_ d) (PermissionsURL s) in
        match resp with
        | inl err => panic err
        | inr resp =>
            match json_Decode_value env (Body resp) with
            | Some err => panic err
            | None => ret (inr [])
            end
        end
  end.

Definition HasPermission (r : Request) (permission : string) : M bool :=
  let* data := getAuthSessionDataFromRequest r in
  match data with
  | None => ret false
  | Some p =>
      let* expired := IsExpired p in
      if expired then ret false
      else
        let* d := load p in
        match url_Parse env (HasPermissionURL s) with
        | Some err => panic err
        | None =>
            let url := url_with_permission env (HasPermissionURL s) permission in
            let* resp := client_Get (Token_ d) url in
            match resp with
            | inl err => panic err
            | inr resp =>
                match json_Decode_value env (Body resp) with
                | Some err => panic err
                | None => ret false
                end
            end
        end
  end.

Definition issueAuthCookie (r : Request) (token : Token) : M unit :=
  let* (session, err) := cookieStore_Get r "redeem" in
  match err with
  | Some e => panic e
  | None =>
      let* data := NewAuthSessionData token in
      let session' := {| Values := <["data" := VAuthSessionData data]> (Values session) |} in
      let* _ := set_registry "redeem" (session', None) in
      session_Save "redeem" session'
  end.

Definition CallbackView (r : Request) : M unit :=
  let code := Query_Get r "code" in
  let cont := Query_Get r "state" in
  let* jr := client_Exchange code in
  match jr with
  | inl err => http_Error err 400
  | inr jr =>
      let* _ := issueAuthCookie r jr in
      http_Redirect cont 303
  end.

End Osecure.

Definition result_of {A} (c : M A) (w : World) : Res A := (c w).1.

Definition events_of {A} (c : M A) (w : World) : list Event :=
  drop (length (trace w)) (trace (c w).2).

Definition session_of (r : Request) (nm : string) (w : World) : Session * option error :=
  match registry w !! nm with
  | Some info => info
  | None => CookieStore_New r nm
  end.

(** Sample collaborators and a world with record [d] at address 0. *)
Definition ex_env (now : time.Time) : Env :=
  {| clock := fun _ => now;
     AuthCodeURL := fun st => String.append "https://auth.example/authorize?state=" st;
     Exchange := fun c => if String.eqb c "good" then inr Ex.tok
                          else inl "oauth2: cannot fetch token";
     remote := fun _ => inr (mkResponse "{}");
     url_Parse := fun _ => None;
     url_with_permission := fun u x => String.append u (String.append "?permission=" x);
     json_read := fun _ => None |}.

Definition ex_s : OAuthSession :=
  mkOAuthSession "sess" "https://auth.example/permissions"
                 "https://auth.example/has_permission".

Definition ex_w (d : AuthSessionData) : World := mkWorld (<[0%nat := d]> ∅) ∅ 0 0 [].

End V1.

(* ===================================================================== *)
(** ** The order on strings *)
(* ===================================================================== *)

Section StringOrder.

Lemma ascii_compare_refl (c : Ascii.ascii) : Ascii.compare c c = Eq.
Proof. unfold Ascii.compare. apply N.compare_refl. Qed.

Lemma ascii_compare_Eq (a b : Ascii.ascii) : Ascii.compare a b = Eq -> a = b.
Proof. apply Ascii.compare_eq_iff. Qed.

Lemma ascii_compare_Lt_trans (a b c : Ascii.ascii) :
  Ascii.compare a b = Lt -> Ascii.compare b c = Lt -> Ascii.compare a c = Lt.
Proof.
  unfold Ascii.compare. rewrite !N.compare_lt_iff. lia.
Qed.

Lemma string_compare_refl (a : string) : String.compare a a = Eq.
Proof.
  induction a as [|c a IH]; simpl; [reflexivity|].
  now rewrite ascii_compare_refl.
Qed.

Lemma string_compare_not_Gt_trans (a : string) :
  forall b c, String.compare a b <> Gt -> String.compare b c <> Gt ->
              String.compare a c <> Gt.
Proof.
  induction a as [|x a IH]; intros [|y b] [|z c]; simpl; try congruence.
  destruct (Ascii.compare x y) eqn:Hxy; try congruence;
    destruct (Ascii.compare y z) eqn:Hyz; try congruence; intros Hab Hbc.
  - apply ascii_compare_Eq in Hxy, Hyz. subst. rewrite ascii_compare_refl. eauto.
  - apply ascii_compare_Eq in Hxy. subst. now rewrite Hyz.
  - apply ascii_compare_Eq in Hyz. subst. now rewrite Hxy.
  - now rewrite (ascii_compare_Lt_trans _ _ _ Hxy Hyz).
Qed.

Lemma leb_not_Gt (a b : string) : String.leb a b = true <-> String.compare a b <> Gt.
Proof. unfold String.leb. destruct (String.compare a b); split; congruence. Qed.

Lemma le_refl (a : string) : sort.le a a.
Proof. unfold sort.le. apply leb_not_Gt. now rewrite string_compare_refl. Qed.

Lemma le_trans (a b c : string) : sort.le a b -> sort.le b c -> sort.le a c.
Proof.
  unfold sort.le. rewrite !leb_not_Gt. apply string_compare_not_Gt_trans.
Qed.

Lemma le_antisym (a b : string) : sort.le a b -> sort.le b a -> a = b.
Proof. apply String.leb_antisym. Qed.

Lemma not_le_le (a b : string) : String.leb a b = false -> sort.le b a.
Proof.
  intros H. destruct (String.leb_total a b) as [H'|H']; [congruence | exact H'].
Qed.

End StringOrder.

(* ===================================================================== *)
(** ** [sort.Strings] sorts *)
(* ===================================================================== *)

Section Sorting.

Lemma insert_perm (x : string) (l : list string) :
  Permutation (x :: l) (sort.insert x l).
Proof.
  induction l as [|y l IH]; simpl; [reflexivity|].
  destruct (String.leb x y); [reflexivity|].
  rewrite perm_swap. now constructor.
Qed.

Lemma Strings_perm (a : list string) : Permutation a (sort.Strings a).
Proof.
  induction a as [|x a IH]; simpl; [constructor|].
  rewrite <- insert_perm. now constructor.
Qed.

Lemma insert_HdRel (x y : string) (l : list string) :
  sort.le y x -> HdRel sort.le y l -> HdRel sort.le y (sort.insert x l).
Proof.
  intros Hyx Hl. destruct l as [|z l]; simpl.
  - now constructor.
  - destruct (String.leb x z); constructor; [exact Hyx|].
    now apply HdRel_inv in Hl.
Qed.

Lemma insert_sorted (x : string) (l : list string) :
  Sorted sort.le l -> Sorted sort.le (sort.insert x l).
Proof.
  induction 1 as [|y l Hl IH Hhd]; simpl.
  - repeat constructor.
  - destruct (String.leb x y) eqn:Hxy.
    + constructor; [now constructor | now constructor].
    + constructor; [exact IH|].
      apply insert_HdRel; [now apply not_le_le | exact Hhd].
Qed.

Lemma Strings_sorted (a : list string) : Sorted sort.le (sort.Strings a).
Proof.
  induction a as [|x a IH]; simpl; [constructor | now apply insert_sorted].
Qed.

Lemma Strings_In (a : list string) (x : string) : In x (sort.Strings a) <-> In x a.
Proof.
  split; apply Permutation_in; [symmetry|]; apply Strings_perm.
Qed.

(** A sorted list read by index. *)
Lemma sorted_lookup_le (a : list string) :
  Sorted sort.le a ->
  forall (i j : nat) (x y : string),
    (i <= j)%nat -> a !! i = Some x -> a !! j = Some y -> sort.le x y.
Proof.
  intros Hs. apply Sorted_StronglySorted in Hs; [|exact le_trans].
  induction Hs as [|z a Ha IH Hall]; intros i j x y Hij Hi Hj.
  - discriminate.
  - destruct i as [|i], j as [|j]; simpl in *.
    + injection Hi as <-. injection Hj as <-. apply le_refl.
    + injection Hi as <-. rewrite Forall_forall in Hall. apply Hall.
      eapply list_elem_of_lookup_2. exact Hj.
    + lia.
    + eapply IH; [|exact Hi|exact Hj]. lia.
Qed.

End Sorting.

(* ===================================================================== *)
(** ** [sort.Search] finds the boundary *)
(* ===================================================================== *)

Section Searching.

Variable n : nat.
Variable f : nat -> option bool.
Hypothesis f_defined : forall k, (k < n)%nat -> is_Some (f k).

(** The loop keeps [f (i - 1) = false] and [f j = true] and ends within
    [j - i] rounds, never calling [f] outside [0 .. n-1]. *)
Lemma Search_loop_spec (fuel : nat) :
  forall i j : nat,
    (i <= j)%nat -> (j <= n)%nat -> (j - i <= fuel)%nat ->
    (i = 0%nat \/ f (i - 1)%nat = Some false) ->
    (j = n \/ f j = Some true) ->
    exists r : nat,
      sort.Search_loop fuel f i j = Some r /\ (i <= r)%nat /\ (r <= j)%nat /\
      (r = 0%nat \/ f (r - 1)%nat = Some false) /\
      (r = n \/ f r = Some true).
Proof.
  induction fuel as [|fuel IH]; intros i j Hij Hjn Hfuel Hi Hj;
    cbn [sort.Search_loop].
  - assert (i = j) by lia. subst j.
    rewrite Nat.ltb_irrefl. exists i. repeat split; auto.
  - destruct (i <? j)%nat eqn:Hlt.
    + apply Nat.ltb_lt in Hlt.
      assert (Hh : (i <= (i + j) / 2)%nat /\ ((i + j) / 2 < j)%nat).
      { split.
        - apply Nat.div_le_lower_bound; lia.
        - apply Nat.Div0.div_lt_upper_bound; lia. }
      destruct Hh as [Hh1 Hh2].
      destruct (f_defined ((i + j) / 2)%nat) as [b Hb]; [lia|].
      rewrite Hb. destruct b.
      * destruct (IH i ((i + j) / 2)%nat) as (r & Hr & ? & ? & ? & ?);
          try lia; auto.
        exists r. repeat split; auto; lia.
      * destruct (IH ((i + j) / 2 + 1)%nat j) as (r & Hr & ? & ? & ? & ?);
          try lia; auto.
        { right. now replace ((i + j) / 2 + 1 - 1)%nat with ((i + j) / 2)%nat by lia. }
        exists r. repeat split; auto; lia.
    + apply Nat.ltb_ge in Hlt. assert (i = j) by lia. subst j.
      exists i. repeat split; auto.
Qed.

Lemma Search_spec :
  exists r : nat,
    sort.Search n f = Some r /\ (r <= n)%nat /\
    (r = 0%nat \/ f (r - 1)%nat = Some false) /\
    (r = n \/ f r = Some true).
Proof.
  destruct (Search_loop_spec n 0%nat n) as (r & Hr & ? & ? & ? & ?);
    try lia; auto.
  exists r. auto.
Qed.

End Searching.

Section SearchStrings.

Variable a : list string.
Variable x : string.

(** [sort.SearchStrings] returns an index on every list, sorted or not. *)
Lemma SearchStrings_total :
  exists id : nat, sort.SearchStrings a x = Some id /\ (id <= length a)%nat.
Proof.
  unfold sort.SearchStrings.
  edestruct (Search_spec (length a)) as (r & Hr & Hle & _).
  2: { exists r. split; [exact Hr | exact Hle]. }
  intros k Hk. destruct (lookup_lt_is_Some_2 a k Hk) as [y Hy].
  rewrite Hy. eauto.
Qed.

(** On a sorted list the index it returns holds [x] exactly when [x]
    is in the list. *)
Lemma SearchStrings_sorted :
  Sorted sort.le a ->
  exists id : nat,
    sort.SearchStrings a x = Some id /\ (id <= length a)%nat /\
    (a !! id = Some x <-> In x a).
Proof.
  intros Hs. unfold sort.SearchStrings.
  edestruct (Search_spec (length a)) as (r & Hr & Hle & Hlo & Hhi).
  2: { exists r. split; [exact Hr|]. split; [exact Hle|]. split.
       - intros Hx. apply list_elem_of_In. eapply list_elem_of_lookup_2. exact Hx.
       - intros Hin. apply list_elem_of_In, list_elem_of_lookup in Hin.
         destruct Hin as [k Hk].
         assert (Hrk : (r <= k)%nat).
         { destruct (Nat.le_gt_cases r k) as [|Hlt]; [assumption|exfalso].
           destruct Hlo as [->|Hlo]; [lia|].
           simpl in Hlo. destruct (a !! (r - 1)%nat) as [z|] eqn:Hz; [|discriminate].
           injection Hlo as Hlo.
           assert (sort.le x z) as Hxz.
           { eapply (sorted_lookup_le a Hs k (r - 1)%nat); [lia|exact Hk|exact Hz]. }
           unfold sort.le in Hxz. congruence. }
         pose proof (lookup_lt_Some _ _ _ Hk) as Hkn.
         destruct Hhi as [->|Hhi]; [lia|].
         simpl in Hhi. destruct (a !! r) as [y|] eqn:Hy; [|discriminate].
         injection Hhi as Hhi. f_equal.
         apply le_antisym; [|exact Hhi].
         eapply (sorted_lookup_le a Hs r k); [exact Hrk|exact Hy|exact Hk]. }
  intros k Hk. destruct (lookup_lt_is_Some_2 a k Hk) as [y Hy].
  simpl. rewrite Hy. eauto.
Qed.

End SearchStrings.

(* ===================================================================== *)
(** ** Running the operations *)
(* ===================================================================== *)

Section Runs.

Variable env : Env.
Variable tun : Tunables.
Variable s : OAuthSession.
Variable r : Request.

Lemma cookieStore_Get_run (nm : string) (w : World) :
  cookieStore_Get r nm w =
  (Ok (session_of r nm w),
   mkWorld (heap w) (<[nm := session_of r nm w]> (registry w))
           (ticks w) (gets w) (trace w)).
Proof.
  unfold cookieStore_Get, session_of.
  destruct (registry w !! nm) as [info|] eqn:Hreg.
  - rewrite insert_id by exact Hreg. now destruct w.
  - reflexivity.
Qed.

Lemma getAuthSessionDataFromRequest_run (w : World) :
  getAuthSessionDataFromRequest s r w =
  (match (session_of r (name s) w).2 with
   | Some e => Panic e
   | None => Ok (data_of (session_of r (name s) w).1)
   end,
   mkWorld (heap w) (<[name s := session_of r (name s) w]> (registry w))
           (ticks w) (gets w) (trace w)).
Proof.
  unfold getAuthSessionDataFromRequest, bind. rewrite cookieStore_Get_run.
  destruct (session_of r (name s) w) as [sess [e|]]; simpl; [reflexivity|].
  unfold data_of. destruct (Values sess !! "data") as [[p|t|o]|]; reflexivity.
Qed.

Lemma IsExpired_run (w : World) (p : loc) (d : AuthSessionData) :
  heap w !! p = Some d ->
  IsExpired env p w =
  (Ok (time.Before (ExpireAt d) (clock env (ticks w))),
   mkWorld (heap w) (registry w) (S (ticks w)) (gets w) (trace w)).
Proof.
  intros Hp. unfold IsExpired, bind, load. now rewrite Hp.
Qed.

Lemma IsPermExpired_run (w : World) (p : loc) (d : AuthSessionData) :
  heap w !! p = Some d ->
  IsPermExpired env p w =
  (Ok (time.Before (PermExpireAt d) (clock env (ticks w))),
   mkWorld (heap w) (registry w) (S (ticks w)) (gets w) (trace w)).
Proof.
  intros Hp. unfold IsPermExpired, bind, load. now rewrite Hp.
Qed.

Lemma issueAuthCookie_run (w : World) (p : loc) :
  issueAuthCookie s r p w =
  match (session_of r (name s) w).2 with
  | Some e =>
      (Panic e,
       mkWorld (heap w) (<[name s := session_of r (name s) w]> (registry w))
               (ticks w) (gets w) (trace w))
  | None =>
      let vals := <["data" := VAuthSessionData p]> (Values (session_of r (name s) w).1) in
      (Ok tt,
       mkWorld (heap w) (<[name s := (mkSession vals, None)]> (registry w))
               (ticks w) (gets w)
               (trace w ++ [EvSave (name s) (snapshot (heap w) vals)]))
  end.
Proof.
  unfold issueAuthCookie, bind. rewrite cookieStore_Get_run.
  destruct (session_of r (name s) w) as [sess [e|]]; simpl; [reflexivity|].
  unfold session_Save, emit, set_registry; simpl.
  now rewrite insert_insert_eq.
Qed.

Lemma snapshot_data (h : gmap loc AuthSessionData) (vals : gmap string Value) (p : loc) :
  snapshot h (<["data" := VAuthSessionData p]> vals) !! "data"
  = DAuthSessionData <$> h !! p.
Proof.
  unfold snapshot. now rewrite lookup_omap, lookup_insert_eq.
Qed.

Lemma bind_load {B} (k : AuthSessionData -> M B) (w : World) (p : loc) (d : AuthSessionData) :
  heap w !! p = Some d -> bind (load p) k w = k d w.
Proof. intros Hp. unfold bind, load. now rewrite Hp. Qed.

Lemma bind_store {B} (k : unit -> M B) (w : World) (p : loc) (d0 d : AuthSessionData) :
  heap w !! p = Some d0 ->
  bind (store p d) k w =
  k tt (mkWorld (<[p := d]> (heap w)) (registry w) (ticks w) (gets w) (trace w)).
Proof. intros Hp. unfold bind, store. now rewrite Hp. Qed.

Lemma bind_time_Now {B} (k : time.Time -> M B) (w : World) :
  bind (time_Now env) k w =
  k (clock env (ticks w))
    (mkWorld (heap w) (registry w) (S (ticks w)) (gets w) (trace w)).
Proof. reflexivity. Qed.

Lemma bind_client_Get {B} (k : error + Response -> M B) (w : World)
    (tok : Token) (url : string) :
  bind (client_Get env tok url) k w =
  k (remote env (gets w))
    (mkWorld (heap w) (registry w) (ticks w) (S (gets w))
             (trace w ++ [EvGet url tok])).
Proof. reflexivity. Qed.

Lemma ensurePermUpdated_run (w : World) (p : loc) (d : AuthSessionData) :
  heap w !! p = Some d ->
  ensurePermUpdated env tun s r p w =
  if time.Before (PermExpireAt d) (clock env (ticks w)) then
    let tr := trace w ++ [EvGet (permissionsURL s) (Token_ d)] in
    let failed := mkWorld (heap w) (registry w) (S (ticks w)) (S (gets w)) tr in
    match remote env (gets w) with
    | inl e => (Panic e, failed)
    | inr resp =>
        match json_Decode env (Body resp) with
        | inl e => (Panic e, failed)
        | inr perms =>
            issueAuthCookie s r p
              (mkWorld (<[p := refreshed tun (clock env (S (ticks w))) perms d]> (heap w))
                       (registry w) (S (S (ticks w))) (S (gets w)) tr)
        end
    end
  else (Ok tt, mkWorld (heap w) (registry w) (S (ticks w)) (gets w) (trace w)).
Proof.
  intros Hp. unfold ensurePermUpdated, bind at 1.
  rewrite (IsPermExpired_run w p d Hp).
  destruct (time.Before (PermExpireAt d) (clock env (ticks w)));
    cbn [negb]; [|reflexivity].
  erewrite bind_load by exact Hp.
  rewrite bind_client_Get. cbn [heap registry ticks gets trace].
  destruct (remote env (gets w)) as [e|resp]; [reflexivity|].
  destruct (json_Decode env (Body resp)) as [e|perms]; [reflexivity|].
  erewrite bind_load by exact Hp.
  erewrite bind_store by exact Hp.
  rewrite bind_time_Now. cbn [heap registry ticks gets trace].
  erewrite bind_load by apply lookup_insert_eq.
  erewrite bind_store by apply lookup_insert_eq.
  cbn [heap registry ticks gets trace].
  erewrite bind_load by apply lookup_insert_eq.
  erewrite bind_store by apply lookup_insert_eq.
  cbn [heap registry ticks gets trace Token_ ExpireAt Permissions PermExpireAt].
  rewrite !insert_insert_eq. reflexivity.
Qed.

End Runs.


(* ===================================================================== *)
(** ** The guard *)
(* ===================================================================== *)

Section Guard.

Variable env : Env.
Variable s : OAuthSession.
Variable r : Request.

Lemma Secured_run (w : World) :
  Secured env s r w =
  let reg := <[name s := session_of r (name s) w]> (registry w) in
  let redirect := EvRedirect (AuthCodeURL env (RequestURI r)) 303 in
  match (session_of r (name s) w).2 with
  | Some e => (Panic e, mkWorld (heap w) reg (ticks w) (gets w) (trace w))
  | None =>
      match data_of (session_of r (name s) w).1 with
      | None =>
          (Ok tt, mkWorld (heap w) reg (ticks w) (gets w) (trace w ++ [redirect]))
      | Some p =>
          match heap w !! p with
          | None => (Panic nil_deref, mkWorld (heap w) reg (ticks w) (gets w) (trace w))
          | Some d =>
              (Ok tt,
               mkWorld (heap w) reg (S (ticks w)) (gets w)
                 (trace w ++ [if time.Before (ExpireAt d) (clock env (ticks w))
                              then redirect else EvServeHTTP]))
          end
      end
  end.
Proof.
  unfold Secured, isAuthorized, bind at 1 2.
  rewrite getAuthSessionDataFromRequest_run.
  destruct (session_of r (name s) w).2 as [e|]; [reflexivity|].
  destruct (data_of (session_of r (name s) w).1) as [p|]; [|reflexivity].
  destruct (heap w !! p) as [d|] eqn:Hp.
  - unfold bind. erewrite IsExpired_run by exact Hp.
    cbn [heap registry ticks gets trace].
    destruct (time.Before (ExpireAt d) (clock env (ticks w))); reflexivity.
  - unfold IsExpired, bind, load. cbn [heap]. now rewrite Hp.
Qed.

End Guard.

(** C1, as the code has it: the guard invokes the wrapped handler if and
    only if the session store yields a record whose [ExpireAt] is not
    before now, that is [now <= ExpireAt]; the handler is then the only
    effect. When the store yields no record, or a record whose [ExpireAt]
    is strictly before now, the guard redirects (303) to the authorisation
    URL built from the request URI and the handler is not invoked. *)
Theorem Secured_invokes_handler_iff (env : Env) (s : OAuthSession) (r : Request) (w : World) :
  let read := result_of (getAuthSessionDataFromRequest s r) w in
  let now := clock env (ticks w) in
  let events := events_of (Secured env s r) w in
  (EvServeHTTP ∈ events <->
   exists (p : loc) (d : AuthSessionData),
     read = Ok (Some p) /\ heap w !! p = Some d /\ now <= ExpireAt d) /\
  (EvServeHTTP ∈ events -> events = [EvServeHTTP]) /\
  ((read = Ok None \/
    exists (p : loc) (d : AuthSessionData),
      read = Ok (Some p) /\ heap w !! p = Some d /\ ExpireAt d < now) ->
   events = [EvRedirect (AuthCodeURL env (RequestURI r)) 303]).
Proof.
  cbv zeta. unfold events_of, result_of.
  rewrite Secured_run, getAuthSessionDataFromRequest_run. cbv zeta.
  destruct (session_of r (name s) w).2 as [e|]; cbn [fst snd trace].
  { rewrite drop_all. repeat split.
    - intros H. inversion H.
    - intros (p & d & H & _). discriminate.
    - intros H. inversion H.
    - intros [H|(p & d & H & _)]; discriminate. }
  destruct (data_of (session_of r (name s) w).1) as [p|]; cbn [fst snd trace].
  2: { rewrite drop_app_length. repeat split.
       - intros H. apply list_elem_of_singleton in H. discriminate.
       - intros (p & d & H & _). discriminate.
       - intros H. apply list_elem_of_singleton in H. discriminate. }
  destruct (heap w !! p) as [d|] eqn:Hp; cbn [fst snd trace].
  2: { rewrite drop_all. repeat split.
       - intros H. inversion H.
       - intros (p' & d & H & Hd & _). congruence.
       - intros H. inversion H.
       - intros [H|(p' & d & H & Hd & _)]; congruence. }
  rewrite drop_app_length. unfold time.Before.
  destruct (Z.ltb_spec (ExpireAt d) (clock env (ticks w))) as [Hlt|Hge].
  - repeat split.
    + intros H. apply list_elem_of_singleton in H. discriminate.
    + intros (p' & d' & H & Hd & Hle).
      assert (p' = p) by congruence. subst p'.
      assert (d' = d) by congruence. subst d'. lia.
    + intros H. apply list_elem_of_singleton in H. discriminate.
  - repeat split.
    + intros _. exists p, d. auto.
    + intros _. apply list_elem_of_singleton. reflexivity.
    + intros [H|(p' & d' & H & Hd & Hlt)]; [discriminate|].
      assert (p' = p) by congruence. subst p'.
      assert (d' = d) by congruence. subst d'. lia.
Qed.

Lemma Secured_invokes_handler_iff_witness :
  EvServeHTTP ∈ events_of (Secured (Ex.env 1000 (inr [])) Ex.s Ex.req)
                          (Ex.w (Ex.rec 2000 [] 0)).
Proof.
  apply (proj2 (proj1 (Secured_invokes_handler_iff (Ex.env 1000 (inr [])) Ex.s Ex.req
                         (Ex.w (Ex.rec 2000 [] 0))))).
  exists 0%nat, (Ex.rec 2000 [] 0).
  split; [reflexivity|]. split; [reflexivity|]. simpl. lia.
Defined.

(** C1 fails as stated at the boundary: with [ExpireAt] equal to the
    current instant the handler is invoked and nothing is redirected. *)
Lemma Secured_boundary_counterexample :
  let env := Ex.env 1000 (inr []) in
  let d := Ex.rec 1000 [] 0 in
  result_of (getAuthSessionDataFromRequest Ex.s Ex.req) (Ex.w d) = Ok (Some 0%nat) /\
  heap (Ex.w d) !! 0%nat = Some d /\
  ExpireAt d = clock env (ticks (Ex.w d)) /\
  ~ clock env (ticks (Ex.w d)) < ExpireAt d /\
  events_of (Secured env Ex.s Ex.req) (Ex.w d) = [EvServeHTTP].
Proof.
  cbv zeta. repeat split; try (vm_compute; reflexivity).
  vm_compute. discriminate.
Qed.

(* ===================================================================== *)
(** ** Reading the session *)
(* ===================================================================== *)

(** C2, as the code has it: on the first read of the session in a
    request, the read yields no record when the cookie is missing, when
    the decoded session has nothing under ["data"] and when what it has
    there is not a record pointer; it yields the record when there is
    one; and when the cookie does not decode, the error the cookie store
    reports is raised as a panic. No read has an effect on the response. *)
Theorem getAuthSessionDataFromRequest_outcomes (s : OAuthSession) (r : Request) (w : World) :
  registry w !! name s = None ->
  let read := result_of (getAuthSessionDataFromRequest s r) w in
  (Cookies r !! name s = None -> read = Ok None) /\
  (forall vals : gmap string Value,
     Cookies r !! name s = Some (CookieDecoded vals) ->
     (vals !! "data" = None -> read = Ok None) /\
     (forall v : Value,
        vals !! "data" = Some v -> (forall p : loc, v <> VAuthSessionData p) ->
        read = Ok None) /\
     (forall p : loc, vals !! "data" = Some (VAuthSessionData p) -> read = Ok (Some p))) /\
  (forall e : error, Cookies r !! name s = Some (CookieUndecodable e) -> read = Panic e) /\
  events_of (getAuthSessionDataFromRequest s r) w = [].
Proof.
  intros Hreg. cbv zeta. unfold result_of, events_of.
  rewrite getAuthSessionDataFromRequest_run. cbn [fst snd trace].
  unfold session_of, CookieStore_New. rewrite Hreg.
  split; [|split; [|split]].
  - intros ->. reflexivity.
  - intros vals ->. cbn [fst snd]. unfold data_of. cbn [Values].
    split; [|split].
    + intros ->. reflexivity.
    + intros v -> Hv. destruct v as [p| |]; [|reflexivity|reflexivity].
      now destruct (Hv p).
    + intros p ->. reflexivity.
  - intros e ->. reflexivity.
  - apply drop_all.
Qed.

Lemma getAuthSessionDataFromRequest_outcomes_witness :
  registry (Ex.w (Ex.rec 2000 [] 0)) !! name Ex.s = None /\
  result_of (getAuthSessionDataFromRequest Ex.s Ex.req_wrongtype) (Ex.w (Ex.rec 2000 [] 0))
  = Ok None.
Proof.
  split; [reflexivity|].
  refine (proj1 (proj2 (proj1 (proj2
            (getAuthSessionDataFromRequest_outcomes Ex.s Ex.req_wrongtype
               (Ex.w (Ex.rec 2000 [] 0)) eq_refl))
            (<["data" := VTime 5]> ∅) eq_refl)) (VTime 5) eq_refl _).
  intros p. discriminate.
Defined.

(** C2 fails as stated for a cookie that does not decode: the read
    panics with the cookie store's error instead of yielding no record. *)
Lemma getAuthSessionDataFromRequest_tampered_counterexample :
  Cookies Ex.req_tampered !! name Ex.s
  = Some (CookieUndecodable "securecookie: the value is not valid") /\
  result_of (getAuthSessionDataFromRequest Ex.s Ex.req_tampered) (Ex.w (Ex.rec 2000 [] 0))
  = Panic "securecookie: the value is not valid" /\
  result_of (getAuthSessionDataFromRequest Ex.s Ex.req_tampered) (Ex.w (Ex.rec 2000 [] 0))
  <> Ok None.
Proof.
  repeat split; try (vm_compute; reflexivity).
  vm_compute. discriminate.
Qed.

(* ===================================================================== *)
(** ** The callback *)
(* ===================================================================== *)

Section Callback.

Variable env : Env.
Variable tun : Tunables.
Variable s : OAuthSession.
Variable r : Request.

Lemma CallbackView_run (w : World) :
  CallbackView env tun s r w =
  let code := Query_Get r "code" in
  match Exchange env code with
  | inl err =>
      (Ok tt, mkWorld (heap w) (registry w) (ticks w) (gets w)
                      (trace w ++ [EvExchange code; EvError err 400]))
  | inr token =>
      let p := fresh (dom (heap w)) in
      let h := <[p := new_record tun token (clock env (ticks w))]> (heap w) in
      match (session_of r (name s) w).2 with
      | Some e =>
          (Panic e,
           mkWorld h (<[name s := session_of r (name s) w]> (registry w))
                   (S (ticks w)) (gets w) (trace w ++ [EvExchange code]))
      | None =>
          let vals := <["data" := VAuthSessionData p]> (Values (session_of r (name s) w).1) in
          (Ok tt,
           mkWorld h (<[name s := (mkSession vals, None)]> (registry w))
                   (S (ticks w)) (gets w)
                   (trace w ++ [EvExchange code; EvSave (name s) (snapshot h vals);
                                EvRedirect (Query_Get r "state") 303]))
      end
  end.
Proof.
  unfold CallbackView, client_Exchange. cbv zeta.
  unfold bind at 1 2. unfold emit at 1, ret at 1. cbn [fst snd].
  destruct (Exchange env (Query_Get r "code")) as [err|token].
  - unfold http_Error, emit. cbn [heap registry ticks gets trace].
    now rewrite <- app_assoc.
  - unfold NewAuthSessionData, bind at 1 2 3, time_Now, alloc.
    cbn [heap registry ticks gets trace].
    rewrite issueAuthCookie_run. unfold session_of at 1 3.
    cbn [heap registry ticks gets trace].
    fold (session_of r (name s) w).
    destruct (session_of r (name s) w).2 as [e|]; [reflexivity|].
    unfold http_Redirect, emit. cbn [heap registry ticks gets trace].
    now rewrite <- !app_assoc.
Qed.

End Callback.

(** C7: when the exchange of the code fails, the callback answers 400
    with the error's text and does nothing else: no cookie is saved, and
    the records and the registered sessions are as they were. *)
Theorem CallbackView_exchange_failure
    (env : Env) (tun : Tunables) (s : OAuthSession) (r : Request) (w : World) (err : error) :
  Exchange env (Query_Get r "code") = inl err ->
  let run := CallbackView env tun s r in
  result_of run w = Ok tt /\
  events_of run w = [EvExchange (Query_Get r "code"); EvError err 400] /\
  (forall (nm : string) (payload : gmap string Dyn), EvSave nm payload ∉ events_of run w) /\
  heap (run w).2 = heap w /\
  registry (run w).2 = registry w.
Proof.
  intros Hex. cbv zeta. unfold result_of, events_of.
  rewrite CallbackView_run. cbv zeta. rewrite Hex. cbn [fst snd heap registry trace].
  rewrite drop_app_length. repeat split.
  intros nm payload Hin.
  apply list_elem_of_In in Hin. destruct Hin as [H|[H|[]]]; discriminate.
Qed.

Lemma CallbackView_exchange_failure_witness :
  Exchange (Ex.env 1000 (inr [])) (Query_Get Ex.req_badcode "code")
  = inl "oauth2: cannot fetch token" /\
  events_of (CallbackView (Ex.env 1000 (inr [])) defaultTunables Ex.s Ex.req_badcode)
            (Ex.w (Ex.rec 2000 ["a"] 0))
  = [EvExchange "bad"; EvError "oauth2: cannot fetch token" 400].
Proof.
  split; [reflexivity|].
  exact (proj1 (proj2 (CallbackView_exchange_failure (Ex.env 1000 (inr [])) defaultTunables
                         Ex.s Ex.req_badcode (Ex.w (Ex.rec 2000 ["a"] 0))
                         "oauth2: cannot fetch token" eq_refl))).
Defined.

(** C8, as the code has it: when the exchange succeeds the callback
    builds a new record with [ExpireAt = now + SessionExpireTime] seconds
    (86400 by default), no permissions and the zero [PermExpireAt], which
    is before every later instant. It then reads the session of the
    request: if that read is free of error, the record is put under
    ["data"], the session is saved and the callback redirects (303) to
    the [state] parameter; if the cookie store reports an error (the
    request carries a session cookie that does not decode), the callback
    panics with it, and nothing is saved or redirected. *)
Theorem CallbackView_exchange_success
    (env : Env) (tun : Tunables) (s : OAuthSession) (r : Request) (w : World) (token : Token) :
  Exchange env (Query_Get r "code") = inr token ->
  let run := CallbackView env tun s r in
  let now := clock env (ticks w) in
  let p := fresh (dom (heap w)) in
  let d := {| Token_ := token;
              ExpireAt := now + time.seconds (SessionExpireTime tun);
              Permissions := [];
              PermExpireAt := 0 |} in
  heap w !! p = None /\
  heap (run w).2 !! p = Some d /\
  (SessionExpireTime tun = 86400 -> ExpireAt d = now + 86400 * 1000000000) /\
  (forall t : time.Time, 0 < t -> time.Before (PermExpireAt d) t = true) /\
  (forall sess : Session,
     result_of (cookieStore_Get r (name s)) w = Ok (sess, None) ->
     result_of run w = Ok tt /\
     exists payload : gmap string Dyn,
       events_of run w = [EvExchange (Query_Get r "code"); EvSave (name s) payload;
                          EvRedirect (Query_Get r "state") 303] /\
       payload !! "data" = Some (DAuthSessionData d) /\
       exists sess' : Session,
         registry (run w).2 !! name s = Some (sess', None) /\
         Values sess' !! "data" = Some (VAuthSessionData p)) /\
  (forall (sess : Session) (e : error),
     result_of (cookieStore_Get r (name s)) w = Ok (sess, Some e) ->
     result_of run w = Panic e /\
     events_of run w = [EvExchange (Query_Get r "code")]).
Proof.
  intros Hex. cbv zeta. unfold result_of, events_of.
  rewrite CallbackView_run, cookieStore_Get_run. cbv zeta. rewrite Hex.
  cbn [fst snd].
  assert (Hfresh : heap w !! fresh (dom (heap w)) = None).
  { apply not_elem_of_dom. apply is_fresh. }
  split; [exact Hfresh|].
  split.
  { destruct (session_of r (name s) w).2; cbn [snd heap];
      now rewrite lookup_insert_eq. }
  split; [intros ->; reflexivity|].
  split; [intros t Ht; apply Z.ltb_lt; exact Ht|].
  destruct (session_of r (name s) w) as [sess0 [e0|]]; cbn [fst snd heap registry trace].
  - split; [intros sess H; discriminate|].
    intros sess e H. injection H as _ <-.
    split; [reflexivity|]. now rewrite drop_app_length.
  - split; [|intros sess e H; discriminate].
    intros sess _. split; [reflexivity|].
    eexists. split; [now rewrite drop_app_length|].
    split.
    + rewrite snapshot_data, lookup_insert_eq. reflexivity.
    + eexists. split; [apply lookup_insert_eq|]. cbn [Values].
      apply lookup_insert_eq.
Qed.

Lemma CallbackView_exchange_success_witness :
  Exchange (Ex.env 1000 (inr [])) (Query_Get Ex.req_nocookie "code") = inr Ex.tok /\
  result_of (CallbackView (Ex.env 1000 (inr [])) defaultTunables Ex.s Ex.req_nocookie)
            (Ex.w (Ex.rec 2000 ["a"] 0)) = Ok tt.
Proof.
  split; [reflexivity|].
  exact (proj1 (proj1 (proj2 (proj2 (proj2 (proj2
           (CallbackView_exchange_success (Ex.env 1000 (inr [])) defaultTunables
              Ex.s Ex.req_nocookie (Ex.w (Ex.rec 2000 ["a"] 0)) Ex.tok eq_refl)))))
           (mkSession ∅) eq_refl)).
Defined.

(** C8 fails as stated when the request carries a session cookie that
    does not decode: the exchange succeeds, yet the callback panics
    before any cookie is saved and before the redirect. *)
Lemma CallbackView_tampered_counterexample :
  let run := CallbackView (Ex.env 1000 (inr [])) defaultTunables Ex.s Ex.req_tampered in
  let w := Ex.w (Ex.rec 2000 ["a"] 0) in
  Exchange (Ex.env 1000 (inr [])) (Query_Get Ex.req_tampered "code") = inr Ex.tok /\
  result_of run w = Panic "securecookie: the value is not valid" /\
  events_of run w = [EvExchange "good"].
Proof.
  cbv zeta. repeat split; vm_compute; reflexivity.
Qed.

(* ===================================================================== *)
(** ** The permission cache *)
(* ===================================================================== *)

Section Cache.

Variable env : Env.
Variable tun : Tunables.
Variable s : OAuthSession.
Variable r : Request.

(** A stale cache costs one GET, which is the first event; a fresh one
    costs none. *)
Lemma ensurePermUpdated_gets (w : World) (p : loc) (d : AuthSessionData) :
  heap w !! p = Some d ->
  gets (ensurePermUpdated env tun s r p w).2 =
  if time.Before (PermExpireAt d) (clock env (ticks w)) then S (gets w) else gets w.
Proof.
  intros Hp. rewrite (ensurePermUpdated_run env tun s r w p d Hp). cbv zeta.
  destruct (time.Before (PermExpireAt d) (clock env (ticks w))); [|reflexivity].
  destruct (remote env (gets w)) as [e|resp]; [reflexivity|].
  destruct (json_Decode env (Body resp)) as [e|perms]; [reflexivity|].
  rewrite issueAuthCookie_run.
  match goal with |- context [(session_of ?a ?b ?c).2] =>
    destruct (session_of a b c).2 end; reflexivity.
Qed.

Lemma ensurePermUpdated_events (w : World) (p : loc) (d : AuthSessionData) :
  heap w !! p = Some d ->
  exists rest : list Event,
    events_of (ensurePermUpdated env tun s r p) w =
    (if time.Before (PermExpireAt d) (clock env (ticks w))
     then EvGet (permissionsURL s) (Token_ d) :: rest else []) /\
    forall (url : string) (tok : Token), EvGet url tok ∉ rest.
Proof.
  intros Hp. unfold events_of.
  rewrite (ensurePermUpdated_run env tun s r w p d Hp). cbv zeta.
  destruct (time.Before (PermExpireAt d) (clock env (ticks w))).
  2: { exists []. cbn [snd trace]. rewrite drop_all. split; [reflexivity|].
       intros url tok H. inversion H. }
  destruct (remote env (gets w)) as [e|resp].
  { exists []. cbn [snd trace]. rewrite drop_app_length. split; [reflexivity|].
    intros url tok H. inversion H. }
  destruct (json_Decode env (Body resp)) as [e|perms].
  { exists []. cbn [snd trace]. rewrite drop_app_length. split; [reflexivity|].
    intros url tok H. inversion H. }
  rewrite issueAuthCookie_run.
  match goal with |- context [(session_of ?a ?b ?c).2] =>
    destruct (session_of a b c) as [sess [e|]] end; cbn [fst snd trace].
  - exists []. rewrite drop_app_length. split; [reflexivity|].
    intros url tok H. inversion H.
  - eexists [_]. rewrite <- app_assoc, drop_app_length. split; [reflexivity|].
    intros url tok H. apply list_elem_of_singleton in H. discriminate.
Qed.

End Cache.

(** C3: when the cached permissions are stale and the fetch succeeds, the
    record ends up with the fetched list in ascending order (a sorted
    permutation of it) and with [PermExpireAt] set to the clock read
    after the fetch plus [PermissionExpireTime] seconds (600 by default);
    token and [ExpireAt] stay. Whenever the operation returns, the session
    holding that record has been saved, and that save is its last effect.
    It does return when the session of the request reads without error,
    which is the case where the queries call it: they have read the
    session before. *)
Theorem ensurePermUpdated_refresh
    (env : Env) (tun : Tunables) (s : OAuthSession) (r : Request) (w : World)
    (p : loc) (d : AuthSessionData) (resp : Response) (perms : list string) :
  heap w !! p = Some d ->
  PermExpireAt d < clock env (ticks w) ->
  remote env (gets w) = inr resp ->
  json_Decode env (Body resp) = inr perms ->
  let run := ensurePermUpdated env tun s r p in
  let now := clock env (S (ticks w)) in
  exists d' : AuthSessionData,
    heap (run w).2 !! p = Some d' /\
    Permissions d' = sort.Strings perms /\
    Sorted sort.le (Permissions d') /\
    Permutation perms (Permissions d') /\
    PermExpireAt d' = now + time.seconds (PermissionExpireTime tun) /\
    (PermissionExpireTime tun = 600 -> PermExpireAt d' = now + 600 * 1000000000) /\
    Token_ d' = Token_ d /\
    ExpireAt d' = ExpireAt d /\
    (result_of run w = Ok tt ->
     exists payload : gmap string Dyn,
       events_of run w = [EvGet (permissionsURL s) (Token_ d); EvSave (name s) payload] /\
       payload !! "data" = Some (DAuthSessionData d')) /\
    (forall sess : Session,
       result_of (cookieStore_Get r (name s)) w = Ok (sess, None) ->
       result_of run w = Ok tt).
Proof.
  intros Hp Hstale Hremote Hdecode. cbv zeta.
  apply Z.ltb_lt in Hstale. unfold result_of, events_of.
  rewrite (ensurePermUpdated_run env tun s r w p d Hp), cookieStore_Get_run.
  unfold time.Before. rewrite Hstale, Hremote, Hdecode. cbv zeta.
  rewrite issueAuthCookie_run. unfold session_of. cbn [registry heap ticks gets trace].
  fold (session_of r (name s) w).
  exists (refreshed tun (clock env (S (ticks w))) perms d).
  split.
  { destruct (session_of r (name s) w).2; cbn [snd heap]; apply lookup_insert_eq. }
  split; [reflexivity|].
  split; [apply Strings_sorted|].
  split; [apply Strings_perm|].
  split; [reflexivity|].
  split; [intros Hdef; cbn [refreshed PermExpireAt]; rewrite Hdef; reflexivity|].
  split; [reflexivity|].
  split; [reflexivity|].
  cbn [fst]. destruct (session_of r (name s) w) as [sess [e|]]; cbn [fst snd trace].
  - split; [discriminate|]. intros sess' H. discriminate.
  - split; [|reflexivity]. intros _. eexists. split.
    + rewrite <- app_assoc, drop_app_length. reflexivity.
    + rewrite snapshot_data, lookup_insert_eq. reflexivity.
Qed.

Lemma ensurePermUpdated_refresh_witness :
  let env := Ex.env 1000 (inr ["b"; "a"]) in
  let w := Ex.w (Ex.rec 2000 [] 0) in
  let run := ensurePermUpdated env defaultTunables Ex.s Ex.req 0%nat in
  heap w !! 0%nat = Some (Ex.rec 2000 [] 0) /\
  PermExpireAt (Ex.rec 2000 [] 0) < clock env (ticks w) /\
  remote env (gets w) = inr (mkResponse "body") /\
  json_Decode env "body" = inr ["b"; "a"] /\
  result_of run w = Ok tt /\
  exists d' : AuthSessionData,
    heap (run w).2 !! 0%nat = Some d' /\
    Permissions d' = ["a"; "b"] /\
    PermExpireAt d' = 600000001000.
Proof.
  cbv zeta.
  assert (Hstale : PermExpireAt (Ex.rec 2000 [] 0) < 1000) by (simpl; lia).
  split; [reflexivity|]. split; [exact Hstale|].
  split; [reflexivity|]. split; [reflexivity|].
  destruct (ensurePermUpdated_refresh (Ex.env 1000 (inr ["b"; "a"])) defaultTunables
              Ex.s Ex.req (Ex.w (Ex.rec 2000 [] 0)) 0%nat (Ex.rec 2000 [] 0)
              (mkResponse "body") ["b"; "a"] eq_refl Hstale eq_refl eq_refl)
    as (d' & Hd' & Hperms & _ & _ & Hexp & _ & _ & _ & _ & Hreturns).
  split.
  - exact (Hreturns (mkSession (<["data" := VAuthSessionData 0%nat]> ∅)) eq_refl).
  - exists d'. split; [exact Hd'|]. split; [exact Hperms | exact Hexp].
Defined.

(** C4, as the code has it: [ensurePermUpdated] does nothing but read the
    clock exactly when now is not after [PermExpireAt], that is
    [now <= PermExpireAt]; when [PermExpireAt] is strictly before now it
    makes one GET to the permissions URL with the record's token, as its
    first effect. If a call returns and the clock read by the next call
    is not after the record's [PermExpireAt], the next call fetches
    nothing, so that the two calls together make one fetch when the first
    found the cache stale and none when it found it fresh. *)
Theorem ensurePermUpdated_noop_iff
    (env : Env) (tun : Tunables) (s : OAuthSession) (r : Request) (w : World)
    (p : loc) (d : AuthSessionData) :
  heap w !! p = Some d ->
  let run := ensurePermUpdated env tun s r p in
  let now := clock env (ticks w) in
  (now <= PermExpireAt d ->
   run w = (Ok tt, mkWorld (heap w) (registry w) (S (ticks w)) (gets w) (trace w)) /\
   fetches_of run w = 0%nat /\ events_of run w = []) /\
  (PermExpireAt d < now ->
   fetches_of run w = 1%nat /\
   exists rest : list Event,
     events_of run w = EvGet (permissionsURL s) (Token_ d) :: rest /\
     forall (url : string) (tok : Token), EvGet url tok ∉ rest) /\
  (forall (w1 : World) (d1 : AuthSessionData),
     run w = (Ok tt, w1) ->
     heap w1 !! p = Some d1 ->
     clock env (ticks w1) <= PermExpireAt d1 ->
     fetches_of run w1 = 0%nat /\
     fetches_of (let* _ := run in run) w = if PermExpireAt d <? now then 1%nat else 0%nat).
Proof.
  intros Hp. cbv zeta.
  pose proof (ensurePermUpdated_gets env tun s r w p d Hp) as Hgets.
  destruct (ensurePermUpdated_events env tun s r w p d Hp) as (rest & Hev & Hrest).
  split; [|split].
  - intros Hfresh. apply Z.ltb_ge in Hfresh.
    unfold fetches_of. rewrite Hgets, Hev.
    rewrite (ensurePermUpdated_run env tun s r w p d Hp).
    unfold time.Before. rewrite Hfresh. repeat split. lia.
  - intros Hstale. apply Z.ltb_lt in Hstale.
    unfold fetches_of. rewrite Hgets. unfold time.Before in *. rewrite Hstale in *.
    split; [lia|]. exists rest. split; [exact Hev | exact Hrest].
  - intros w1 d1 Hrun Hp1 Hfresh1. apply Z.ltb_ge in Hfresh1.
    pose proof (ensurePermUpdated_gets env tun s r w1 p d1 Hp1) as Hgets1.
    unfold time.Before in *. rewrite Hfresh1 in Hgets1.
    unfold fetches_of, bind. rewrite Hrun. cbn [snd]. rewrite Hgets1.
    rewrite Hrun in Hgets. cbn [snd] in Hgets. rewrite Hgets.
    destruct (PermExpireAt d <? clock env (ticks w)); split; lia.
Qed.

Lemma ensurePermUpdated_noop_iff_witness :
  let env := Ex.env 1000 (inr ["b"; "a"]) in
  let run := ensurePermUpdated env defaultTunables Ex.s Ex.req 0%nat in
  heap (Ex.w (Ex.rec 2000 [] 0)) !! 0%nat = Some (Ex.rec 2000 [] 0) /\
  fetches_of run (Ex.w (Ex.rec 2000 [] 0)) = 1%nat /\
  fetches_of (let* _ := run in run) (Ex.w (Ex.rec 2000 [] 0)) = 1%nat.
Proof.
  cbv zeta. split; [reflexivity|].
  pose proof (ensurePermUpdated_noop_iff (Ex.env 1000 (inr ["b"; "a"])) defaultTunables
                Ex.s Ex.req (Ex.w (Ex.rec 2000 [] 0)) 0%nat (Ex.rec 2000 [] 0) eq_refl)
    as (_ & Hstale & Htwice).
  split.
  - apply Hstale. simpl. lia.
  - refine (proj2 (Htwice _ (Ex.rec 2000 ["a"; "b"] 600000001000) _ _ _)).
    + vm_compute. reflexivity.
    + vm_compute. reflexivity.
    + vm_compute. discriminate.
Defined.

(** C4 fails as stated at the boundary: with [PermExpireAt] equal to the
    current instant, now is not strictly before it and yet nothing is
    fetched. *)
Lemma ensurePermUpdated_boundary_counterexample :
  let env := Ex.env 1000 (inr ["b"; "a"]) in
  let d := Ex.rec 2000 [] 1000 in
  let run := ensurePermUpdated env defaultTunables Ex.s Ex.req 0%nat in
  heap (Ex.w d) !! 0%nat = Some d /\
  PermExpireAt d = clock env (ticks (Ex.w d)) /\
  ~ clock env (ticks (Ex.w d)) < PermExpireAt d /\
  fetches_of run (Ex.w d) = 0%nat /\
  events_of run (Ex.w d) = [].
Proof.
  cbv zeta. repeat split; try (vm_compute; reflexivity).
  vm_compute. discriminate.
Qed.

(** C9: when the cache is stale and the GET fails, or its body does not
    decode, [ensurePermUpdated] panics with that error, and so does
    whatever its caller would have done next. The GET is the only effect:
    the record, and with it its permissions and [PermExpireAt], and the
    registered sessions are as they were and nothing is saved. *)
Theorem ensurePermUpdated_failure_fatal
    (env : Env) (tun : Tunables) (s : OAuthSession) (r : Request) (w : World)
    (p : loc) (d : AuthSessionData) (e : error) :
  heap w !! p = Some d ->
  PermExpireAt d < clock env (ticks w) ->
  (remote env (gets w) = inl e \/
   exists resp : Response,
     remote env (gets w) = inr resp /\ json_Decode env (Body resp) = inl e) ->
  let run := ensurePermUpdated env tun s r p in
  result_of run w = Panic e /\
  (forall (B : Type) (k : unit -> M B), result_of (let* x := run in k x) w = Panic e) /\
  heap (run w).2 = heap w /\
  heap (run w).2 !! p = Some d /\
  registry (run w).2 = registry w /\
  events_of run w = [EvGet (permissionsURL s) (Token_ d)] /\
  (forall (nm : string) (payload : gmap string Dyn), EvSave nm payload ∉ events_of run w).
Proof.
  intros Hp Hstale Hfail. cbv zeta. apply Z.ltb_lt in Hstale.
  assert (Hrun : ensurePermUpdated env tun s r p w =
                 (Panic e, mkWorld (heap w) (registry w) (S (ticks w)) (S (gets w))
                                   (trace w ++ [EvGet (permissionsURL s) (Token_ d)]))).
  { rewrite (ensurePermUpdated_run env tun s r w p d Hp).
    unfold time.Before. rewrite Hstale. cbv zeta.
    destruct Hfail as [->|(resp & -> & ->)]; reflexivity. }
  unfold result_of, events_of, bind. rewrite Hrun. cbn [fst snd heap registry trace].
  rewrite drop_app_length. repeat split; try assumption.
  intros nm payload H. apply list_elem_of_singleton in H. discriminate.
Qed.

Lemma ensurePermUpdated_failure_fatal_witness :
  let w := Ex.w (Ex.rec 2000 ["a"] 0) in
  heap w !! 0%nat = Some (Ex.rec 2000 ["a"] 0) /\
  PermExpireAt (Ex.rec 2000 ["a"] 0) < clock (Ex.env_down 1000) (ticks w) /\
  remote (Ex.env_down 1000) (gets w) = inl "dial tcp: connection refused" /\
  result_of (ensurePermUpdated (Ex.env_down 1000) defaultTunables Ex.s Ex.req 0%nat) w
  = Panic "dial tcp: connection refused".
Proof.
  cbv zeta.
  assert (Hstale : PermExpireAt (Ex.rec 2000 ["a"] 0) < 1000) by (simpl; lia).
  repeat (split; [first [reflexivity | exact Hstale]|]).
  exact (proj1 (ensurePermUpdated_failure_fatal (Ex.env_down 1000) defaultTunables
                  Ex.s Ex.req (Ex.w (Ex.rec 2000 ["a"] 0)) 0%nat (Ex.rec 2000 ["a"] 0)
                  "dial tcp: connection refused" eq_refl Hstale (or_introl eq_refl))).
Defined.

(* ===================================================================== *)
(** ** The permission queries *)
(* ===================================================================== *)

Section Queries.

Variable env : Env.
Variable tun : Tunables.
Variable s : OAuthSession.
Variable r : Request.

(** Both queries start alike; [k] is what they do with a valid session
    and [no] what they answer without one. *)
Lemma session_check_run {A} (no : A) (k : loc -> M A) (w : World) :
  (let* data := getAuthSessionDataFromRequest s r in
   match data with
   | None => ret no
   | Some p => let* expired := IsExpired env p in
               if expired then ret no else k p
   end) w =
  let reg := <[name s := session_of r (name s) w]> (registry w) in
  let unread := mkWorld (heap w) reg (ticks w) (gets w) (trace w) in
  match (session_of r (name s) w).2 with
  | Some e => (Panic e, unread)
  | None =>
      match data_of (session_of r (name s) w).1 with
      | None => (Ok no, unread)
      | Some p =>
          match heap w !! p with
          | None => (Panic nil_deref, unread)
          | Some d =>
              if time.Before (ExpireAt d) (clock env (ticks w))
              then (Ok no, checked s r w)
              else k p (checked s r w)
          end
      end
  end.
Proof.
  unfold bind at 1. rewrite getAuthSessionDataFromRequest_run. cbv zeta.
  destruct (session_of r (name s) w).2 as [e|]; [reflexivity|].
  destruct (data_of (session_of r (name s) w).1) as [p|]; [|reflexivity].
  destruct (heap w !! p) as [d|] eqn:Hp.
  - unfold bind. erewrite IsExpired_run by exact Hp.
    cbn [heap registry ticks gets trace]. fold (checked s r w).
    destruct (time.Before (ExpireAt d) (clock env (ticks w))); reflexivity.
  - unfold IsExpired, bind, load. cbn [heap]. now rewrite Hp.
Qed.

Lemma session_of_registered (h : gmap loc AuthSessionData)
    (reg : gmap string (Session * option error)) (info : Session * option error)
    (t g : nat) (tr : list Event) :
  session_of r (name s) (mkWorld h (<[name s := info]> reg) t g tr) = info.
Proof. unfold session_of. cbn [registry]. now rewrite lookup_insert_eq. Qed.

(** The refresh as the queries run it: the session has been read
    without error, so the save goes through. *)
Lemma ensurePermUpdated_checked (w : World) (p : loc) (d : AuthSessionData) :
  heap w !! p = Some d ->
  (session_of r (name s) w).2 = None ->
  ensurePermUpdated env tun s r p (checked s r w) =
  if time.Before (PermExpireAt d) (clock env (S (ticks w))) then
    let tr := trace w ++ [EvGet (permissionsURL s) (Token_ d)] in
    let failed := mkWorld (heap w) (registry (checked s r w)) (S (S (ticks w)))
                          (S (gets w)) tr in
    match remote env (gets w) with
    | inl e => (Panic e, failed)
    | inr resp =>
        match json_Decode env (Body resp) with
        | inl e => (Panic e, failed)
        | inr perms =>
            let h := <[p := refreshed tun (clock env (S (S (ticks w)))) perms d]> (heap w) in
            let vals := <["data" := VAuthSessionData p]>
                          (Values (session_of r (name s) w).1) in
            (Ok tt,
             mkWorld h (<[name s := (mkSession vals, None)]> (registry w))
                     (S (S (S (ticks w)))) (S (gets w))
                     (tr ++ [EvSave (name s) (snapshot h vals)]))
        end
    end
  else
    (Ok tt, mkWorld (heap w) (registry (checked s r w)) (S (S (ticks w))) (gets w) (trace w)).
Proof.
  intros Hp Herr.
  rewrite (ensurePermUpdated_run env tun s r (checked s r w) p d Hp).
  cbn [checked heap registry ticks gets trace]. cbv zeta.
  destruct (time.Before (PermExpireAt d) (clock env (S (ticks w)))); [|reflexivity].
  destruct (remote env (gets w)) as [e|resp]; [reflexivity|].
  destruct (json_Decode env (Body resp)) as [e|perms]; [reflexivity|].
  rewrite issueAuthCookie_run, session_of_registered.
  cbn [heap registry ticks gets trace].
  rewrite Herr. rewrite insert_insert_eq. reflexivity.
Qed.

(** The lookup [HasPermission] ends with: it never indexes out of
    range, it answers [true] only for a member, and on a sorted list it
    answers [true] for every member. *)
Lemma lookup_tail (perms : list string) (permission : string) :
  exists b : bool,
    (match sort.SearchStrings perms permission with
     | None => panic index_out_of_range
     | Some id =>
         if (id <? length perms)%nat then
           match perms !! id with
           | Some x => ret (String.eqb x permission)
           | None => panic index_out_of_range
           end
         else ret false
     end) = ret b /\
    (b = true -> In permission perms) /\
    (Sorted sort.le perms -> In permission perms -> b = true).
Proof.
  assert (Hcases : exists id : nat,
             sort.SearchStrings perms permission = Some id /\ (id <= length perms)%nat /\
             (Sorted sort.le perms -> (perms !! id = Some permission <-> In permission perms))).
  { destruct (SearchStrings_total perms permission) as (id & Hid & Hle).
    exists id. split; [exact Hid|]. split; [exact Hle|].
    intros Hs. destruct (SearchStrings_sorted perms permission Hs) as (id' & Hid' & _ & Hiff).
    assert (id' = id) by congruence. subst id'. exact Hiff. }
  destruct Hcases as (id & -> & Hle & Hiff).
  destruct (id <? length perms)%nat eqn:Hlt.
  - apply Nat.ltb_lt in Hlt.
    destruct (lookup_lt_is_Some_2 perms id Hlt) as [x Hx]. rewrite Hx.
    exists (String.eqb x permission). split; [reflexivity|]. split.
    + intros Heq. apply String.eqb_eq in Heq. subst x.
      apply list_elem_of_In. eapply list_elem_of_lookup_2. exact Hx.
    + intros Hs Hin. apply (Hiff Hs) in Hin.
      assert (x = permission) by congruence. subst x. apply String.eqb_refl.
  - apply Nat.ltb_ge in Hlt. exists false. split; [reflexivity|]. split.
    + discriminate.
    + intros Hs Hin. apply (Hiff Hs) in Hin.
      apply lookup_lt_Some in Hin. lia.
Qed.

End Queries.

Section QueryFacts.

Variable env : Env.
Variable tun : Tunables.
Variable s : OAuthSession.
Variable r : Request.

(** What a successful read of the session says about the world. *)
Lemma read_Some (w : World) (p : loc) :
  result_of (getAuthSessionDataFromRequest s r) w = Ok (Some p) ->
  (session_of r (name s) w).2 = None /\
  data_of (session_of r (name s) w).1 = Some p.
Proof.
  unfold result_of. rewrite getAuthSessionDataFromRequest_run. cbn [fst].
  destruct (session_of r (name s) w).2; [discriminate|].
  intros H. split; [reflexivity | congruence].
Qed.

Lemma read_None (w : World) :
  result_of (getAuthSessionDataFromRequest s r) w = Ok None ->
  (session_of r (name s) w).2 = None /\
  data_of (session_of r (name s) w).1 = None.
Proof.
  unfold result_of. rewrite getAuthSessionDataFromRequest_run. cbn [fst].
  destruct (session_of r (name s) w).2; [discriminate|].
  intros H. split; [reflexivity | congruence].
Qed.

Lemma HasPermission_run (permission : string) (w : World) :
  HasPermission env tun s r permission w =
  let reg := <[name s := session_of r (name s) w]> (registry w) in
  let unread := mkWorld (heap w) reg (ticks w) (gets w) (trace w) in
  match (session_of r (name s) w).2 with
  | Some e => (Panic e, unread)
  | None =>
      match data_of (session_of r (name s) w).1 with
      | None => (Ok false, unread)
      | Some p =>
          match heap w !! p with
          | None => (Panic nil_deref, unread)
          | Some d =>
              if time.Before (ExpireAt d) (clock env (ticks w))
              then (Ok false, checked s r w)
              else
                (let* _ := ensurePermUpdated env tun s r p in
                 let* d := load p in
                 let perms := Permissions d in
                 match sort.SearchStrings perms permission with
                 | None => panic index_out_of_range
                 | Some id =>
                     if (id <? length perms)%nat then
                       match perms !! id with
                       | Some x => ret (String.eqb x permission)
                       | None => panic index_out_of_range
                       end
                     else ret false
                 end) (checked s r w)
          end
      end
  end.
Proof. unfold HasPermission. now rewrite session_check_run. Qed.

Lemma GetPermissions_run (w : World) :
  GetPermissions env tun s r w =
  let reg := <[name s := session_of r (name s) w]> (registry w) in
  let unread := mkWorld (heap w) reg (ticks w) (gets w) (trace w) in
  match (session_of r (name s) w).2 with
  | Some e => (Panic e, unread)
  | None =>
      match data_of (session_of r (name s) w).1 with
      | None => (Ok (inl invalid_session), unread)
      | Some p =>
          match heap w !! p with
          | None => (Panic nil_deref, unread)
          | Some d =>
              if time.Before (ExpireAt d) (clock env (ticks w))
              then (Ok (inl invalid_session), checked s r w)
              else
                (let* _ := ensurePermUpdated env tun s r p in
                 let* d := load p in
                 ret (inr (Permissions d))) (checked s r w)
          end
      end
  end.
Proof. unfold GetPermissions. now rewrite session_check_run. Qed.

Section ValidSession.

Variable w : World.
Variable p : loc.
Variable d : AuthSessionData.
Hypothesis Herr : (session_of r (name s) w).2 = None.
Hypothesis Hdata : data_of (session_of r (name s) w).1 = Some p.
Hypothesis Hp : heap w !! p = Some d.
Hypothesis Hvalid : time.Before (ExpireAt d) (clock env (ticks w)) = false.

Lemma HasPermission_fresh (permission : string) :
  time.Before (PermExpireAt d) (clock env (S (ticks w))) = false ->
  exists b : bool,
    HasPermission env tun s r permission w = (Ok b, fresh_world s r w) /\
    (b = true -> In permission (Permissions d)) /\
    (Sorted sort.le (Permissions d) -> In permission (Permissions d) -> b = true).
Proof.
  intros Hfresh. rewrite HasPermission_run. cbv zeta.
  rewrite Herr, Hdata, Hp, Hvalid.
  unfold bind at 1. rewrite (ensurePermUpdated_checked env tun s r w p d Hp Herr).
  rewrite Hfresh. erewrite bind_load by exact Hp.
  destruct (lookup_tail (Permissions d) permission) as (b & -> & Hsound & Hcomplete).
  exists b. repeat split; assumption.
Qed.

Lemma HasPermission_refreshed (permission : string)
    (resp : Response) (perms : list string) :
  time.Before (PermExpireAt d) (clock env (S (ticks w))) = true ->
  remote env (gets w) = inr resp ->
  json_Decode env (Body resp) = inr perms ->
  exists b : bool,
    HasPermission env tun s r permission w = (Ok b, refreshed_world env tun s r w p d perms) /\
    (b = true <-> In permission perms).
Proof.
  intros Hstale Hremote Hdecode. rewrite HasPermission_run. cbv zeta.
  rewrite Herr, Hdata, Hp, Hvalid.
  unfold bind at 1. rewrite (ensurePermUpdated_checked env tun s r w p d Hp Herr).
  rewrite Hstale, Hremote, Hdecode. cbv beta iota zeta.
  erewrite bind_load by apply lookup_insert_eq.
  cbn [refreshed Permissions].
  destruct (lookup_tail (sort.Strings perms) permission)
    as (b & -> & Hsound & Hcomplete).
  exists b. split.
  - unfold ret, refreshed_world. now rewrite <- app_assoc.
  - rewrite <- (Strings_In perms permission).
    split; [exact Hsound | exact (Hcomplete (Strings_sorted perms))].
Qed.

Lemma GetPermissions_fresh :
  time.Before (PermExpireAt d) (clock env (S (ticks w))) = false ->
  GetPermissions env tun s r w = (Ok (inr (Permissions d)), fresh_world s r w).
Proof.
  intros Hfresh. rewrite GetPermissions_run. cbv zeta.
  rewrite Herr, Hdata, Hp, Hvalid.
  unfold bind at 1. rewrite (ensurePermUpdated_checked env tun s r w p d Hp Herr).
  rewrite Hfresh. erewrite bind_load by exact Hp. reflexivity.
Qed.

Lemma GetPermissions_refreshed (resp : Response) (perms : list string) :
  time.Before (PermExpireAt d) (clock env (S (ticks w))) = true ->
  remote env (gets w) = inr resp ->
  json_Decode env (Body resp) = inr perms ->
  GetPermissions env tun s r w = (Ok (inr (sort.Strings perms)), refreshed_world env tun s r w p d perms).
Proof.
  intros Hstale Hremote Hdecode. rewrite GetPermissions_run. cbv zeta.
  rewrite Herr, Hdata, Hp, Hvalid.
  unfold bind at 1. rewrite (ensurePermUpdated_checked env tun s r w p d Hp Herr).
  rewrite Hstale, Hremote, Hdecode. cbv beta iota zeta.
  erewrite bind_load by apply lookup_insert_eq.
  unfold ret, refreshed_world. now rewrite <- app_assoc.
Qed.

Lemma refresh_failed {A} (k : unit -> M A) (e : error) :
  time.Before (PermExpireAt d) (clock env (S (ticks w))) = true ->
  (remote env (gets w) = inl e \/
   exists resp : Response,
     remote env (gets w) = inr resp /\ json_Decode env (Body resp) = inl e) ->
  ((let* x := ensurePermUpdated env tun s r p in k x) (checked s r w)).1 = Panic e.
Proof.
  intros Hstale Hfail.
  unfold bind at 1. rewrite (ensurePermUpdated_checked env tun s r w p d Hp Herr).
  rewrite Hstale. cbv zeta.
  destruct Hfail as [->|(resp & -> & ->)]; reflexivity.
Qed.

Lemma GetPermissions_failed (e : error) :
  time.Before (PermExpireAt d) (clock env (S (ticks w))) = true ->
  (remote env (gets w) = inl e \/
   exists resp : Response,
     remote env (gets w) = inr resp /\ json_Decode env (Body resp) = inl e) ->
  result_of (GetPermissions env tun s r) w = Panic e.
Proof.
  intros Hstale Hfail. unfold result_of. rewrite GetPermissions_run. cbv zeta.
  rewrite Herr, Hdata, Hp, Hvalid. now apply refresh_failed.
Qed.

Lemma HasPermission_failed (permission : string) (e : error) :
  time.Before (PermExpireAt d) (clock env (S (ticks w))) = true ->
  (remote env (gets w) = inl e \/
   exists resp : Response,
     remote env (gets w) = inr resp /\ json_Decode env (Body resp) = inl e) ->
  result_of (HasPermission env tun s r permission) w = Panic e.
Proof.
  intros Hstale Hfail. unfold result_of. rewrite HasPermission_run. cbv zeta.
  rewrite Herr, Hdata, Hp, Hvalid. now apply refresh_failed.
Qed.

End ValidSession.

End QueryFacts.

Lemma read_Panic (s : OAuthSession) (r : Request) (w : World) (e : error) :
  result_of (getAuthSessionDataFromRequest s r) w = Panic e ->
  (session_of r (name s) w).2 = Some e.
Proof.
  unfold result_of. rewrite getAuthSessionDataFromRequest_run. cbn [fst].
  destruct (session_of r (name s) w).2; congruence.
Qed.

(** C5, as the code has it: a request ends [HasPermission] in one of
    these ways. When the session read panics (the cookie does not
    decode), [HasPermission] panics with the same error. When the read
    yields no record, or a record whose [ExpireAt] is before now, it
    answers [false] outright, without any effect. Otherwise it refreshes
    the cache if stale: when the fetch or the decoding fails it panics
    with that error; after a successful fetch it answers [true] if and
    only if the identifier is in the fetched list; with a fresh cache,
    whose list is sorted as the code stores it, it makes no fetch and
    answers [true] if and only if the identifier is in the cached list. *)
Theorem HasPermission_spec
    (env : Env) (tun : Tunables) (s : OAuthSession) (r : Request) (w : World)
    (permission : string) :
  let read := result_of (getAuthSessionDataFromRequest s r) w in
  let run := HasPermission env tun s r permission in
  let t0 := clock env (ticks w) in
  let t1 := clock env (S (ticks w)) in
  (forall e : error,
     read = Panic e -> result_of run w = Panic e /\ events_of run w = []) /\
  (read = Ok None -> result_of run w = Ok false /\ events_of run w = []) /\
  (forall (p : loc) (d : AuthSessionData),
     read = Ok (Some p) -> heap w !! p = Some d ->
     (ExpireAt d < t0 -> result_of run w = Ok false /\ events_of run w = []) /\
     (t0 <= ExpireAt d -> t1 <= PermExpireAt d -> Sorted sort.le (Permissions d) ->
      exists b : bool,
        result_of run w = Ok b /\ fetches_of run w = 0%nat /\
        (b = true <-> In permission (Permissions d))) /\
     (t0 <= ExpireAt d -> PermExpireAt d < t1 ->
      forall (resp : Response) (perms : list string),
        remote env (gets w) = inr resp -> json_Decode env (Body resp) = inr perms ->
        exists b : bool,
          result_of run w = Ok b /\ fetches_of run w = 1%nat /\
          (b = true <-> In permission perms)) /\
     (t0 <= ExpireAt d -> PermExpireAt d < t1 ->
      forall e : error,
        (remote env (gets w) = inl e \/
         exists resp : Response,
           remote env (gets w) = inr resp /\ json_Decode env (Body resp) = inl e) ->
        result_of run w = Panic e)).
Proof.
  cbv zeta. split; [|split].
  - intros e Hread. apply read_Panic in Hread.
    unfold result_of, events_of. rewrite HasPermission_run. cbv zeta.
    rewrite Hread. cbn [fst snd trace]. now rewrite drop_all.
  - intros Hread. apply read_None in Hread. destruct Hread as [Herr Hdata].
    unfold result_of, events_of. rewrite HasPermission_run. cbv zeta.
    rewrite Herr, Hdata. cbn [fst snd trace]. now rewrite drop_all.
  - intros p d Hread Hp. apply read_Some in Hread. destruct Hread as [Herr Hdata].
    split; [|split; [|split]].
    + intros Hexp. apply Z.ltb_lt in Hexp.
      unfold result_of, events_of. rewrite HasPermission_run. cbv zeta.
      rewrite Herr, Hdata, Hp. unfold time.Before. rewrite Hexp.
      unfold checked. cbn [fst snd trace]. now rewrite drop_all.
    + intros Hvalid Hfresh Hsorted. apply Z.ltb_ge in Hvalid, Hfresh.
      destruct (HasPermission_fresh env tun s r w p d Herr Hdata Hp Hvalid permission Hfresh)
        as (b & Hrun & Hsound & Hcomplete).
      exists b. unfold result_of, fetches_of. rewrite Hrun. cbn [fst snd fresh_world gets].
      split; [reflexivity|]. split; [lia|].
      split; [exact Hsound | exact (Hcomplete Hsorted)].
    + intros Hvalid Hstale resp perms Hremote Hdecode.
      apply Z.ltb_ge in Hvalid. apply Z.ltb_lt in Hstale.
      destruct (HasPermission_refreshed env tun s r w p d Herr Hdata Hp Hvalid permission
                  resp perms Hstale Hremote Hdecode) as (b & Hrun & Hiff).
      exists b. unfold result_of, fetches_of. rewrite Hrun.
      cbn [fst snd refreshed_world gets].
      split; [reflexivity|]. split; [lia | exact Hiff].
    + intros Hvalid Hstale e Hfail.
      apply Z.ltb_ge in Hvalid. apply Z.ltb_lt in Hstale.
      exact (HasPermission_failed env tun s r w p d Herr Hdata Hp Hvalid permission e
               Hstale Hfail).
Qed.

Lemma HasPermission_spec_witness :
  let env := Ex.env 1000 (inr []) in
  let d := Ex.rec 2000 ["read"; "write"] 501000 in
  let run := HasPermission env defaultTunables Ex.s Ex.req "write" in
  result_of run (Ex.w d) = Ok true /\ fetches_of run (Ex.w d) = 0%nat.
Proof.
  cbv zeta.
  destruct (proj1 (proj2 (proj2 (proj2 (HasPermission_spec (Ex.env 1000 (inr []))
                                          defaultTunables Ex.s Ex.req
                                          (Ex.w (Ex.rec 2000 ["read"; "write"] 501000))
                                          "write"))
                                0%nat (Ex.rec 2000 ["read"; "write"] 501000)
                                eq_refl eq_refl)))
    as (b & Hrun & Hfetch & Hiff).
  - simpl. lia.
  - simpl. lia.
  - repeat constructor.
  - assert (Hb : b = true).
    { apply Hiff. simpl. right. left. reflexivity. }
    rewrite Hb in Hrun. split; [exact Hrun | exact Hfetch].
Defined.

(** C5 fails as stated on a valid session whose cache is stale when the
    permissions endpoint cannot be reached: the identifier asked for is
    in the cached list, and [HasPermission] neither answers [false]
    outright nor returns [true]: it panics. *)
Lemma HasPermission_failed_fetch_counterexample :
  let env := Ex.env_down 1000 in
  let d := Ex.rec 2000 ["a"] 0 in
  let run := HasPermission env defaultTunables Ex.s Ex.req "a" in
  result_of (getAuthSessionDataFromRequest Ex.s Ex.req) (Ex.w d) = Ok (Some 0%nat) /\
  heap (Ex.w d) !! 0%nat = Some d /\
  clock env 0 < ExpireAt d /\
  PermExpireAt d < clock env 1 /\
  In "a" (Permissions d) /\
  result_of run (Ex.w d) = Panic "dial tcp: connection refused" /\
  result_of run (Ex.w d) <> Ok true.
Proof.
  cbv zeta. repeat split; try (vm_compute; reflexivity).
  - simpl. left. reflexivity.
  - vm_compute. discriminate.
Qed.

(** C10: there is a valid session with a fresh permission cache whose
    list is not sorted and holds the identifier asked for, on which
    [HasPermission] answers [false], without fetching or sorting
    anything. *)
Theorem HasPermission_depends_on_sortedness :
  exists (env : Env) (tun : Tunables) (s : OAuthSession) (r : Request) (w : World)
         (p : loc) (d : AuthSessionData) (permission : string),
    result_of (getAuthSessionDataFromRequest s r) w = Ok (Some p) /\
    heap w !! p = Some d /\
    time.Before (ExpireAt d) (clock env (ticks w)) = false /\
    time.Before (PermExpireAt d) (clock env (S (ticks w))) = false /\
    ~ Sorted sort.le (Permissions d) /\
    In permission (Permissions d) /\
    result_of (HasPermission env tun s r permission) w = Ok false /\
    fetches_of (HasPermission env tun s r permission) w = 0%nat /\
    heap (HasPermission env tun s r permission w).2 !! p = Some d.
Proof.
  exists (Ex.env 1000 (inr [])), defaultTunables, Ex.s, Ex.req,
         (Ex.w (Ex.rec 2000 ["b"; "a"] 2000)), 0%nat, (Ex.rec 2000 ["b"; "a"] 2000), "b".
  repeat split; try (vm_compute; reflexivity).
  - intros Hs. cbn [Ex.rec Permissions] in Hs.
    apply Sorted_inv in Hs. destruct Hs as [_ Hhd].
    apply HdRel_inv in Hhd. vm_compute in Hhd. discriminate.
  - simpl. left. reflexivity.
Qed.

Lemma GetPermissions_tail_not_error
    (env : Env) (tun : Tunables) (s : OAuthSession) (r : Request)
    (p : loc) (w : World) (e : error) :
  ((let* _ := ensurePermUpdated env tun s r p in
    let* d := load p in
    ret (inr (Permissions d))) w).1 <> Ok (inl e : error + list string).
Proof.
  unfold bind. destruct (ensurePermUpdated env tun s r p w) as [[[]|e'] w'];
    [|discriminate].
  unfold load. destruct (heap w' !! p); discriminate.
Qed.

(** C6, as the code has it: [GetPermissions] fails with the "invalid
    session" error exactly when the session read yields no record or a
    record whose [ExpireAt] is before now, and with no other error. When
    the session read panics (the cookie does not decode) it panics with
    the same error. For a valid session it ensures the cache is fresh:
    when the fetch or the decoding of its body fails it does not return
    but panics with that error; otherwise it returns a nil error with
    the record's list, which is the cached list, without a fetch, when
    the cache is fresh and the fetched list in ascending order after a
    fetch. The records being sorted, as the code keeps them, every list
    it returns is sorted. *)
Theorem GetPermissions_spec
    (env : Env) (tun : Tunables) (s : OAuthSession) (r : Request) (w : World) :
  let read := result_of (getAuthSessionDataFromRequest s r) w in
  let run := GetPermissions env tun s r in
  let t0 := clock env (ticks w) in
  let t1 := clock env (S (ticks w)) in
  (result_of run w = Ok (inl invalid_session) <->
   read = Ok None \/
   exists (p : loc) (d : AuthSessionData),
     read = Ok (Some p) /\ heap w !! p = Some d /\ ExpireAt d < t0) /\
  (forall e : error, result_of run w = Ok (inl e) -> e = invalid_session) /\
  (forall e : error, read = Panic e -> result_of run w = Panic e) /\
  (forall (p : loc) (d : AuthSessionData),
     read = Ok (Some p) -> heap w !! p = Some d -> t0 <= ExpireAt d ->
     (t1 <= PermExpireAt d ->
      result_of run w = Ok (inr (Permissions d)) /\ fetches_of run w = 0%nat) /\
     (PermExpireAt d < t1 ->
      forall (resp : Response) (perms : list string),
        remote env (gets w) = inr resp -> json_Decode env (Body resp) = inr perms ->
        result_of run w = Ok (inr (sort.Strings perms)) /\
        Sorted sort.le (sort.Strings perms) /\
        Permutation perms (sort.Strings perms) /\
        fetches_of run w = 1%nat) /\
     (PermExpireAt d < t1 ->
      forall e : error,
        (remote env (gets w) = inl e \/
         exists resp : Response,
           remote env (gets w) = inr resp /\ json_Decode env (Body resp) = inl e) ->
        result_of run w = Panic e)) /\
  (records_sorted (heap w) ->
   forall perms : list string,
     result_of run w = Ok (inr perms) -> Sorted sort.le perms).
Proof.
  cbv zeta.
  assert (Hcases :
    forall e : error,
      result_of (GetPermissions env tun s r) w = Ok (inl e) ->
      e = invalid_session /\
      (result_of (getAuthSessionDataFromRequest s r) w = Ok None \/
       exists (p : loc) (d : AuthSessionData),
         result_of (getAuthSessionDataFromRequest s r) w = Ok (Some p) /\
         heap w !! p = Some d /\ ExpireAt d < clock env (ticks w))).
  { intros e. unfold result_of.
    rewrite GetPermissions_run, getAuthSessionDataFromRequest_run. cbv zeta. cbn [fst].
    destruct (session_of r (name s) w).2 as [e'|]; [discriminate|].
    destruct (data_of (session_of r (name s) w).1) as [p|].
    2: { cbn [fst]. intros H. split; [congruence | now left]. }
    destruct (heap w !! p) as [d|] eqn:Hp; [|discriminate].
    unfold time.Before.
    destruct (Z.ltb_spec (ExpireAt d) (clock env (ticks w))) as [Hlt|Hge].
    - cbn [fst]. intros H. split; [congruence|]. right. exists p, d. auto.
    - intros H. now apply GetPermissions_tail_not_error in H. }
  split; [split|split; [|split; [|split]]].
  - intros H. exact (proj2 (Hcases _ H)).
  - intros [Hread|(p & d & Hread & Hp & Hexp)].
    + apply read_None in Hread. destruct Hread as [Herr Hdata].
      unfold result_of. rewrite GetPermissions_run. cbv zeta.
      now rewrite Herr, Hdata.
    + apply read_Some in Hread. destruct Hread as [Herr Hdata].
      apply Z.ltb_lt in Hexp.
      unfold result_of. rewrite GetPermissions_run. cbv zeta.
      rewrite Herr, Hdata, Hp. unfold time.Before. now rewrite Hexp.
  - intros e H. exact (proj1 (Hcases _ H)).
  - intros e Hread. apply read_Panic in Hread.
    unfold result_of. rewrite GetPermissions_run. cbv zeta. now rewrite Hread.
  - intros p d Hread Hp Hvalid. apply read_Some in Hread. destruct Hread as [Herr Hdata].
    apply Z.ltb_ge in Hvalid. split; [|split].
    + intros Hfresh. apply Z.ltb_ge in Hfresh.
      unfold result_of, fetches_of.
      rewrite (GetPermissions_fresh env tun s r w p d Herr Hdata Hp Hvalid Hfresh).
      cbn [fst snd fresh_world gets]. split; [reflexivity | lia].
    + intros Hstale resp perms Hremote Hdecode. apply Z.ltb_lt in Hstale.
      unfold result_of, fetches_of.
      rewrite (GetPermissions_refreshed env tun s r w p d Herr Hdata Hp Hvalid
                 resp perms Hstale Hremote Hdecode).
      cbn [fst snd refreshed_world gets].
      split; [reflexivity|]. split; [apply Strings_sorted|].
      split; [apply Strings_perm | lia].
    + intros Hstale e Hfail. apply Z.ltb_lt in Hstale.
      exact (GetPermissions_failed env tun s r w p d Herr Hdata Hp Hvalid e Hstale Hfail).
  - intros Hsorted perms. unfold result_of.
    rewrite GetPermissions_run. cbv zeta.
    destruct (session_of r (name s) w).2 as [e'|] eqn:Herr; [discriminate|].
    destruct (data_of (session_of r (name s) w).1) as [p|] eqn:Hdata; [|discriminate].
    destruct (heap w !! p) as [d|] eqn:Hp; [|discriminate].
    destruct (time.Before (ExpireAt d) (clock env (ticks w))) eqn:Hvalid; [discriminate|].
    unfold bind at 1. rewrite (ensurePermUpdated_checked env tun s r w p d Hp Herr).
    destruct (time.Before (PermExpireAt d) (clock env (S (ticks w)))).
    + cbv zeta. destruct (remote env (gets w)) as [e|resp]; [discriminate|].
      destruct (json_Decode env (Body resp)) as [e|fetched]; [discriminate|].
      erewrite bind_load by apply lookup_insert_eq.
      cbn [refreshed Permissions ret fst]. unfold ret. cbn [fst].
      intros H. injection H as <-. apply Strings_sorted.
    + erewrite bind_load by exact Hp. unfold ret. cbn [fst].
      intros H. injection H as <-. exact (Hsorted p d Hp).
Qed.

Lemma GetPermissions_spec_witness :
  result_of (GetPermissions (Ex.env 1000 (inr [])) defaultTunables Ex.s Ex.req_nocookie)
            (Ex.w (Ex.rec 2000 [] 0))
  = Ok (inl invalid_session).
Proof.
  apply (proj2 (proj1 (GetPermissions_spec (Ex.env 1000 (inr [])) defaultTunables
                         Ex.s Ex.req_nocookie (Ex.w (Ex.rec 2000 [] 0))))).
  left. reflexivity.
Defined.

(** C6 fails as stated on a valid session whose cache is stale when the
    permissions endpoint cannot be reached: [GetPermissions] returns
    neither the "invalid session" error nor a nil error with a list, it
    panics. *)
Lemma GetPermissions_failed_fetch_counterexample :
  let env := Ex.env_down 1000 in
  let d := Ex.rec 2000 ["a"] 0 in
  let run := GetPermissions env defaultTunables Ex.s Ex.req in
  result_of (getAuthSessionDataFromRequest Ex.s Ex.req) (Ex.w d) = Ok (Some 0%nat) /\
  heap (Ex.w d) !! 0%nat = Some d /\
  clock env 0 < ExpireAt d /\
  PermExpireAt d < clock env 1 /\
  result_of run (Ex.w d) = Panic "dial tcp: connection refused" /\
  (forall perms : list string, result_of run (Ex.w d) <> Ok (inr perms)).
Proof.
  cbv zeta. repeat split; try (vm_compute; reflexivity).
  intros perms. vm_compute. discriminate.
Qed.

(* ===================================================================== *)
(** ** The runs of the permission queries, case by case *)
(* ===================================================================== *)

Section QueryRuns.

Variable env : Env.
Variable tun : Tunables.
Variable s : OAuthSession.
Variable r : Request.

(** A query is the session check followed by the refresh, the load of
    the record and an answer that leaves the world alone. *)
Lemma session_query_run {A} (no : A) (answer : list string -> Res A)
    (k : AuthSessionData -> M A) (w : World) :
  (forall (d : AuthSessionData) (w' : World), k d w' = (answer (Permissions d), w')) ->
  query_run env tun s r no answer w
    ((let* data := getAuthSessionDataFromRequest s r in
      match data with
      | None => ret no
      | Some p =>
          let* expired := IsExpired env p in
          if expired then ret no
          else
            let* _ := ensurePermUpdated env tun s r p in
            let* d := load p in
            k d
      end) w).
Proof.
  intros Hk. rewrite session_check_run. cbv zeta. fold (unread_world s r w).
  destruct (session_of r (name s) w).2 as [e|] eqn:Herr.
  { now apply query_store_error. }
  destruct (data_of (session_of r (name s) w).1) as [p|] eqn:Hdata.
  2: { now apply query_no_record. }
  destruct (heap w !! p) as [d|] eqn:Hp.
  2: { now apply (query_dangling env tun s r no answer w p). }
  unfold time.Before.
  destruct (Z.ltb_spec (ExpireAt d) (clock env (ticks w))) as [Hexp|Hvalid].
  { now apply (query_expired env tun s r no answer w p d). }
  unfold bind at 1. rewrite (ensurePermUpdated_checked env tun s r w p d Hp Herr).
  unfold time.Before.
  destruct (Z.ltb_spec (PermExpireAt d) (clock env (S (ticks w)))) as [Hstale|Hfresh].
  2: { erewrite bind_load by exact Hp. rewrite Hk.
       now apply (query_fresh env tun s r no answer w p d). }
  cbv zeta. fold (failed_world s r w d).
  destruct (remote env (gets w)) as [e|resp] eqn:Hremote.
  { apply (query_failed env tun s r no answer w p d e); auto. }
  destruct (json_Decode env (Body resp)) as [e|perms] eqn:Hdecode.
  { apply (query_failed env tun s r no answer w p d e); eauto. }
  erewrite bind_load by apply lookup_insert_eq. rewrite Hk.
  cbn [refreshed Permissions]. rewrite <- app_assoc.
  now apply (query_refreshed env tun s r no answer w p d resp perms).
Qed.

Lemma GetPermissions_query_run (w : World) :
  query_run env tun s r (inl invalid_session) (fun perms => Ok (inr perms)) w
            (GetPermissions env tun s r w).
Proof.
  apply (session_query_run (inl invalid_session) (fun perms => Ok (inr perms))).
  reflexivity.
Qed.

Lemma search_answer_run (perms : list string) (permission : string) (w : World) :
  (match sort.SearchStrings perms permission with
   | None => panic index_out_of_range
   | Some id =>
       if (id <? length perms)%nat then
         match perms !! id with
         | Some x => ret (String.eqb x permission)
         | None => panic index_out_of_range
         end
       else ret false
   end) w = (search_answer perms permission, w).
Proof.
  unfold search_answer. destruct (sort.SearchStrings perms permission) as [id|];
    [|reflexivity].
  destruct (id <? length perms)%nat; [|reflexivity].
  destruct (perms !! id); reflexivity.
Qed.

Lemma HasPermission_query_run (permission : string) (w : World) :
  query_run env tun s r false (fun perms => search_answer perms permission) w
            (HasPermission env tun s r permission w).
Proof.
  apply (session_query_run false (fun perms => search_answer perms permission)).
  intros d w'. apply search_answer_run.
Qed.

End QueryRuns.

(* ===================================================================== *)
(** ** What the entry points do to the records *)
(* ===================================================================== *)

Section RecordChanges.

Variable env : Env.
Variable tun : Tunables.
Variable s : OAuthSession.
Variable r : Request.

Lemma query_run_record_change {A} (no : A) (answer : list string -> Res A)
    (w : World) (out : Res A * World) :
  query_run env tun s r no answer w out -> record_change tun (heap w) (heap out.2).
Proof.
  intros H. destruct H; cbn [snd];
    try (left; reflexivity).
  right. left. eexists _, _, _, _. split; [eassumption | reflexivity].
Qed.

Lemma Secured_heap (w : World) : heap (Secured env s r w).2 = heap w.
Proof.
  rewrite Secured_run. cbv zeta.
  destruct (session_of r (name s) w).2; [reflexivity|].
  destruct (data_of (session_of r (name s) w).1) as [p|]; [|reflexivity].
  destruct (heap w !! p); reflexivity.
Qed.

Lemma CallbackView_record_change (w : World) :
  record_change tun (heap w) (heap (CallbackView env tun s r w).2).
Proof.
  rewrite CallbackView_run. cbv zeta.
  destruct (Exchange env (Query_Get r "code")) as [err|token]; [left; reflexivity|].
  right. right. exists token, (clock env (ticks w)).
  destruct (session_of r (name s) w).2; reflexivity.
Qed.

Lemma record_change_sorted (h h' : gmap loc AuthSessionData) :
  record_change tun h h' -> records_sorted h -> records_sorted h'.
Proof.
  intros [->|[(p & d & now & perms & Hp & ->)|(token & now & ->)]] Hs; [exact Hs| |];
    intros q dq Hq.
  - destruct (decide (p = q)) as [->|Hne].
    + rewrite lookup_insert_eq in Hq. injection Hq as <-. apply Strings_sorted.
    + rewrite lookup_insert_ne in Hq by exact Hne. exact (Hs q dq Hq).
  - destruct (decide (fresh (dom h) = q)) as [<-|Hne].
    + rewrite lookup_insert_eq in Hq. injection Hq as <-. constructor.
    + rewrite lookup_insert_ne in Hq by exact Hne. exact (Hs q dq Hq).
Qed.

End RecordChanges.

(** X1: every entry point keeps the records' permission lists sorted:
    if all records are sorted before [Secured], [CallbackView],
    [GetPermissions] or [HasPermission] runs, they all are after it,
    however the run ends. *)
Theorem entry_points_keep_records_sorted
    (env : Env) (tun : Tunables) (s : OAuthSession) (r : Request) (w : World)
    (permission : string) :
  records_sorted (heap w) ->
  records_sorted (heap (Secured env s r w).2) /\
  records_sorted (heap (CallbackView env tun s r w).2) /\
  records_sorted (heap (GetPermissions env tun s r w).2) /\
  records_sorted (heap (HasPermission env tun s r permission w).2).
Proof.
  intros Hs. split; [|split; [|split]].
  - now rewrite Secured_heap.
  - eapply record_change_sorted; [apply CallbackView_record_change | exact Hs].
  - eapply record_change_sorted; [|exact Hs].
    eapply query_run_record_change. apply GetPermissions_query_run.
  - eapply record_change_sorted; [|exact Hs].
    eapply query_run_record_change. apply HasPermission_query_run.
Qed.

Lemma Ex_records_sorted : records_sorted (heap (Ex.w (Ex.rec 2000 ["a"; "c"] 0))).
Proof.
  intros p d Hp. unfold Ex.w in Hp. cbn [heap] in Hp.
  destruct (decide (0%nat = p)) as [<-|Hne].
  - rewrite lookup_insert_eq in Hp. injection Hp as <-. repeat constructor.
  - rewrite lookup_insert_ne in Hp by exact Hne. discriminate.
Defined.

Lemma entry_points_keep_records_sorted_witness :
  records_sorted (heap (Ex.w (Ex.rec 2000 ["a"; "c"] 0))) /\
  records_sorted
    (heap (GetPermissions (Ex.env 1000 (inr ["b"; "a"])) defaultTunables Ex.s Ex.req
             (Ex.w (Ex.rec 2000 ["a"; "c"] 0))).2).
Proof.
  split; [exact Ex_records_sorted|].
  exact (proj1 (proj2 (proj2
           (entry_points_keep_records_sorted (Ex.env 1000 (inr ["b"; "a"])) defaultTunables
              Ex.s Ex.req (Ex.w (Ex.rec 2000 ["a"; "c"] 0)) "a" Ex_records_sorted)))).
Defined.

(* ===================================================================== *)
(** ** Fetches and saves of the entry points *)
(* ===================================================================== *)

Section Effects.

Variable env : Env.
Variable tun : Tunables.
Variable s : OAuthSession.
Variable r : Request.

Lemma read_Some_iff (w : World) (p : loc) :
  result_of (getAuthSessionDataFromRequest s r) w = Ok (Some p) <->
  (session_of r (name s) w).2 = None /\ data_of (session_of r (name s) w).1 = Some p.
Proof.
  split; [apply read_Some|]. intros [Herr Hdata].
  unfold result_of. rewrite getAuthSessionDataFromRequest_run. cbn [fst].
  now rewrite Herr, Hdata.
Qed.

Lemma search_answer_Ok (perms : list string) (permission : string) :
  exists b : bool,
    search_answer perms permission = Ok b /\
    (b = true -> In permission perms) /\
    (Sorted sort.le perms -> In permission perms -> b = true).
Proof.
  destruct (lookup_tail perms permission) as (b & Htail & Hsound & Hcomplete).
  exists b. split; [|split; assumption].
  pose proof (search_answer_run perms permission (mkWorld ∅ ∅ 0 0 [])) as Hrun.
  rewrite Htail in Hrun. unfold ret in Hrun. congruence.
Qed.

(** The events of a query: nothing, a GET that failed, or a GET and the
    save of the refreshed record, after which the answer is computed. *)
Lemma query_run_events {A} (no : A) (answer : list string -> Res A)
    (w : World) (out : Res A * World) :
  query_run env tun s r no answer w out ->
  drop (length (trace w)) (trace out.2) = [] \/
  (exists (d : AuthSessionData) (e : error),
     drop (length (trace w)) (trace out.2) = [EvGet (permissionsURL s) (Token_ d)] /\
     out.1 = Panic e) \/
  (exists (d : AuthSessionData) (payload : gmap string Dyn) (perms : list string),
     drop (length (trace w)) (trace out.2)
     = [EvGet (permissionsURL s) (Token_ d); EvSave (name s) payload] /\
     out.1 = answer (sort.Strings perms)).
Proof.
  intros H. destruct H; cbn [fst snd unread_world checked fresh_world failed_world
                              refreshed_world trace].
  1-5: left; apply drop_all.
  - right. left. exists d, e. now rewrite drop_app_length.
  - right. right. eexists d, _, perms. now rewrite drop_app_length.
Qed.

(** A query fetches once when the session is valid and its cache stale,
    and not at all otherwise. *)
Lemma query_run_fetches {A} (no : A) (answer : list string -> Res A)
    (w : World) (out : Res A * World) :
  query_run env tun s r no answer w out ->
  let needs :=
    exists (p : loc) (d : AuthSessionData),
      result_of (getAuthSessionDataFromRequest s r) w = Ok (Some p) /\
      heap w !! p = Some d /\
      clock env (ticks w) <= ExpireAt d /\
      PermExpireAt d < clock env (S (ticks w)) in
  ((gets out.2 - gets w)%nat = 1%nat /\ needs) \/
  ((gets out.2 - gets w)%nat = 0%nat /\ ~ needs).
Proof.
  intros H. cbv zeta.
  destruct H; cbn [snd unread_world checked fresh_world failed_world refreshed_world gets].
  1-5: right; split; [lia|];
       intros (p' & d' & Hread & Hp' & Hvalid & Hstale);
       apply read_Some_iff in Hread; destruct Hread as [Herr' Hdata'].
  - congruence.
  - congruence.
  - congruence.
  - assert (p' = p) by congruence. subst p'.
    assert (d' = d) by congruence. subst d'. lia.
  - assert (p' = p) by congruence. subst p'.
    assert (d' = d) by congruence. subst d'. lia.
  - left. split; [lia|]. exists p, d. rewrite read_Some_iff. auto.
  - left. split; [lia|]. exists p, d. rewrite read_Some_iff. auto.
Qed.

Lemma Secured_effects (w : World) :
  gets (Secured env s r w).2 = gets w /\
  forall (nm : string) (payload : gmap string Dyn),
    EvSave nm payload ∉ events_of (Secured env s r) w.
Proof.
  unfold events_of. rewrite Secured_run. cbv zeta.
  destruct (session_of r (name s) w).2.
  { cbn [snd gets trace]. rewrite drop_all. split; [reflexivity|].
    intros nm payload H. inversion H. }
  destruct (data_of (session_of r (name s) w).1) as [p|].
  2: { cbn [snd gets trace]. rewrite drop_app_length. split; [reflexivity|].
       intros nm payload H. apply list_elem_of_singleton in H. discriminate. }
  destruct (heap w !! p) as [d|]; cbn [snd gets trace].
  - rewrite drop_app_length. split; [reflexivity|].
    intros nm payload H. apply list_elem_of_singleton in H.
    destruct (time.Before (ExpireAt d) (clock env (ticks w))); discriminate.
  - rewrite drop_all. split; [reflexivity|].
    intros nm payload H. inversion H.
Qed.

Lemma CallbackView_effects (w : World) :
  gets (CallbackView env tun s r w).2 = gets w /\
  (saves (CallbackView env tun s r) w ->
   is_Ok (result_of (CallbackView env tun s r) w) = true).
Proof.
  unfold saves, events_of, result_of. rewrite CallbackView_run. cbv zeta.
  destruct (Exchange env (Query_Get r "code")) as [err|token].
  { split; reflexivity. }
  destruct (session_of r (name s) w).2 as [e|]; cbn [fst snd gets trace].
  - split; [reflexivity|]. rewrite drop_app_length.
    intros (nm & payload & H). apply list_elem_of_singleton in H. discriminate.
  - split; reflexivity.
Qed.

End Effects.

(** X3: a cookie is saved only by a run that completes. [Secured] never
    saves one; when [CallbackView], [GetPermissions] or [HasPermission]
    has saved one, it returns and does not panic. *)
Theorem cookie_saved_only_by_completed_runs
    (env : Env) (tun : Tunables) (s : OAuthSession) (r : Request) (w : World)
    (permission : string) :
  ~ saves (Secured env s r) w /\
  (saves (CallbackView env tun s r) w ->
   is_Ok (result_of (CallbackView env tun s r) w) = true) /\
  (saves (GetPermissions env tun s r) w ->
   is_Ok (result_of (GetPermissions env tun s r) w) = true) /\
  (saves (HasPermission env tun s r permission) w ->
   is_Ok (result_of (HasPermission env tun s r permission) w) = true).
Proof.
  split; [|split; [|split]].
  - intros (nm & payload & H). exact (proj2 (Secured_effects env s r w) nm payload H).
  - apply CallbackView_effects.
  - intros (nm & payload & H). unfold events_of, result_of in *.
    destruct (query_run_events env tun s r _ _ w _ (GetPermissions_query_run env tun s r w))
      as [Hev|[(d & e & Hev & _)|(d & pl & perms & _ & Hres)]].
    + rewrite Hev in H. inversion H.
    + rewrite Hev in H. apply list_elem_of_singleton in H. discriminate.
    + now rewrite Hres.
  - intros (nm & payload & H). unfold events_of, result_of in *.
    destruct (query_run_events env tun s r _ _ w _
                (HasPermission_query_run env tun s r permission w))
      as [Hev|[(d & e & Hev & _)|(d & pl & perms & _ & Hres)]].
    + rewrite Hev in H. inversion H.
    + rewrite Hev in H. apply list_elem_of_singleton in H. discriminate.
    + rewrite Hres.
      destruct (search_answer_Ok (sort.Strings perms) permission) as (b & -> & _).
      reflexivity.
Qed.

Lemma cookie_saved_only_by_completed_runs_witness :
  let run := GetPermissions (Ex.env 1000 (inr ["b"; "a"])) defaultTunables Ex.s Ex.req in
  saves run (Ex.w (Ex.rec 2000 [] 0)) /\
  is_Ok (result_of run (Ex.w (Ex.rec 2000 [] 0))) = true.
Proof.
  cbv zeta.
  assert (Hsaves : saves (GetPermissions (Ex.env 1000 (inr ["b"; "a"])) defaultTunables
                            Ex.s Ex.req) (Ex.w (Ex.rec 2000 [] 0))).
  { eexists _, _. apply list_elem_of_lookup. exists 1%nat. vm_compute. reflexivity. }
  split; [exact Hsaves|].
  exact (proj1 (proj2 (proj2
           (cookie_saved_only_by_completed_runs (Ex.env 1000 (inr ["b"; "a"]))
              defaultTunables Ex.s Ex.req (Ex.w (Ex.rec 2000 [] 0)) "a"))) Hsaves).
Defined.

(** X4: [GetPermissions] and [HasPermission] contact the permissions
    endpoint at most once, and exactly once if and only if the session
    read yields a record that is not expired (now <= ExpireAt) and whose
    cache is stale (PermExpireAt < now at the second clock reading).
    [Secured] and [CallbackView] never contact it. *)
Theorem fetch_iff_valid_and_stale
    (env : Env) (tun : Tunables) (s : OAuthSession) (r : Request) (w : World)
    (permission : string) :
  let needs :=
    exists (p : loc) (d : AuthSessionData),
      result_of (getAuthSessionDataFromRequest s r) w = Ok (Some p) /\
      heap w !! p = Some d /\
      clock env (ticks w) <= ExpireAt d /\
      PermExpireAt d < clock env (S (ticks w)) in
  (fetches_of (GetPermissions env tun s r) w = 1%nat <-> needs) /\
  (fetches_of (GetPermissions env tun s r) w = 0%nat <-> ~ needs) /\
  (fetches_of (HasPermission env tun s r permission) w = 1%nat <-> needs) /\
  (fetches_of (HasPermission env tun s r permission) w = 0%nat <-> ~ needs) /\
  fetches_of (Secured env s r) w = 0%nat /\
  fetches_of (CallbackView env tun s r) w = 0%nat.
Proof.
  cbv zeta. unfold fetches_of.
  pose proof (query_run_fetches env tun s r _ _ w _ (GetPermissions_query_run env tun s r w))
    as HG.
  pose proof (query_run_fetches env tun s r _ _ w _
                (HasPermission_query_run env tun s r permission w)) as HH.
  cbv zeta in HG, HH.
  split; [|split; [|split; [|split; [|split]]]].
  - destruct HG as [[H1 Hn]|[H0 Hn]]; split; auto; intros; [lia | contradiction].
  - destruct HG as [[H1 Hn]|[H0 Hn]]; split; auto; intros; [lia | contradiction].
  - destruct HH as [[H1 Hn]|[H0 Hn]]; split; auto; intros; [lia | contradiction].
  - destruct HH as [[H1 Hn]|[H0 Hn]]; split; auto; intros; [lia | contradiction].
  - rewrite (proj1 (Secured_effects env s r w)). lia.
  - rewrite (proj1 (CallbackView_effects env tun s r w)). lia.
Qed.

Lemma fetch_iff_valid_and_stale_witness :
  fetches_of (GetPermissions (Ex.env 1000 (inr ["b"; "a"])) defaultTunables Ex.s Ex.req)
             (Ex.w (Ex.rec 2000 [] 0)) = 1%nat.
Proof.
  apply (proj2 (proj1 (fetch_iff_valid_and_stale (Ex.env 1000 (inr ["b"; "a"]))
                         defaultTunables Ex.s Ex.req (Ex.w (Ex.rec 2000 [] 0)) "a"))).
  exists 0%nat, (Ex.rec 2000 [] 0).
  split; [reflexivity|]. split; [reflexivity|]. split; simpl; lia.
Defined.

(* ===================================================================== *)
(** ** The session across the guard, the queries and the callback *)
(* ===================================================================== *)

Section SessionKept.

Variable env : Env.
Variable tun : Tunables.
Variable s : OAuthSession.
Variable r : Request.

Lemma session_record_Some (w : World) (d : AuthSessionData) :
  session_record s r w = Some d <->
  exists p : loc,
    (session_of r (name s) w).2 = None /\
    data_of (session_of r (name s) w).1 = Some p /\
    heap w !! p = Some d.
Proof.
  unfold session_record. split.
  - destruct (result_of (getAuthSessionDataFromRequest s r) w) as [[p|]|e] eqn:Hread;
      try discriminate.
    intros Hp. apply read_Some in Hread. destruct Hread as [Herr Hdata].
    exists p. auto.
  - intros (p & Herr & Hdata & Hp).
    now rewrite (proj2 (read_Some_iff s r w p) (conj Herr Hdata)).
Qed.

(** The session record depends on the records and on the registered
    session only. *)
Lemma session_record_registered (w : World) (t g : nat) (tr : list Event)
    (d : AuthSessionData) :
  session_record s r w = Some d ->
  session_record s r
    (mkWorld (heap w) (<[name s := session_of r (name s) w]> (registry w)) t g tr)
  = Some d.
Proof.
  intros H. apply session_record_Some in H. destruct H as (p & Herr & Hdata & Hp).
  apply session_record_Some. exists p. rewrite session_of_registered. auto.
Qed.

Lemma query_run_session_kept {A} (no : A) (answer : list string -> Res A)
    (w : World) (out : Res A * World) (d : AuthSessionData) :
  query_run env tun s r no answer w out ->
  session_record s r w = Some d ->
  session_kept s r d out.2.
Proof.
  intros H Hrec. pose proof Hrec as Hrec'.
  apply session_record_Some in Hrec'. destruct Hrec' as (p0 & Herr0 & Hdata0 & Hp0).
  destruct H as [e He | He Hd | p He Hd Hp | p d1 He Hd Hp Hexp
                 | p d1 He Hd Hp Hv Hf | p d1 e He Hd Hp Hv Hs Hfail
                 | p d1 resp perms He Hd Hp Hv Hs Hrem Hdec]; cbn [snd];
    try congruence.
  - exists d. split; [|auto]. now apply session_record_registered.
  - exists d. split; [|auto]. now apply session_record_registered.
  - exists d. split; [|auto]. now apply session_record_registered.
  - assert (p0 = p) by congruence. subst p0.
    assert (d1 = d) by congruence. subst d1.
    exists (refreshed tun (clock env (S (S (ticks w)))) perms d).
    split; [|auto]. apply session_record_Some. exists p.
    unfold refreshed_world. cbv zeta. rewrite session_of_registered. cbn [fst snd heap].
    split; [reflexivity|]. split.
    + unfold data_of. cbn [Values]. now rewrite lookup_insert_eq.
    + apply lookup_insert_eq.
Qed.

Lemma Secured_session_kept (w : World) (d : AuthSessionData) :
  session_record s r w = Some d -> session_kept s r d (Secured env s r w).2.
Proof.
  intros Hrec. exists d. split; [|auto].
  pose proof Hrec as Hrec'.
  apply session_record_Some in Hrec'. destruct Hrec' as (p & Herr & Hdata & Hp).
  rewrite Secured_run. cbv zeta. rewrite Herr, Hdata, Hp. cbn [snd].
  now apply session_record_registered.
Qed.

End SessionKept.

(** X2: the guard and the permission queries never extend a session.
    When the session read yields a record before [Secured],
    [GetPermissions] or [HasPermission] runs, it yields after the run,
    however it ends, a record with the same token and the same
    [ExpireAt]; so does it after a callback whose exchange fails. Only
    a callback whose exchange succeeds gives the session another expiry:
    the read then yields the new record of that login. *)
Theorem session_expiry_changes_only_by_login
    (env : Env) (tun : Tunables) (s : OAuthSession) (r : Request) (w : World)
    (permission : string) (d : AuthSessionData) :
  session_record s r w = Some d ->
  session_kept s r d (Secured env s r w).2 /\
  session_kept s r d (GetPermissions env tun s r w).2 /\
  session_kept s r d (HasPermission env tun s r permission w).2 /\
  (forall err : error,
     Exchange env (Query_Get r "code") = inl err ->
     session_kept s r d (CallbackView env tun s r w).2) /\
  (forall token : Token,
     Exchange env (Query_Get r "code") = inr token ->
     session_record s r (CallbackView env tun s r w).2
     = Some {| Token_ := token;
               ExpireAt := clock env (ticks w) + time.seconds (SessionExpireTime tun);
               Permissions := [];
               PermExpireAt := 0 |}).
Proof.
  intros Hrec. split; [|split; [|split; [|split]]].
  - now apply Secured_session_kept.
  - eapply query_run_session_kept; [apply GetPermissions_query_run | exact Hrec].
  - eapply query_run_session_kept; [apply HasPermission_query_run | exact Hrec].
  - intros err Hex. exists d. split; [|auto].
    rewrite CallbackView_run. cbv zeta. rewrite Hex. cbn [snd].
    apply session_record_Some in Hrec. destruct Hrec as (p & Herr & Hdata & Hp).
    apply session_record_Some. exists p. auto.
  - intros token Hex.
    apply session_record_Some in Hrec. destruct Hrec as (p & Herr & Hdata & Hp).
    rewrite CallbackView_run. cbv zeta. rewrite Hex, Herr. cbn [snd].
    apply session_record_Some. exists (fresh (dom (heap w))).
    rewrite session_of_registered. cbn [fst snd heap].
    split; [reflexivity|]. split.
    + unfold data_of. cbn [Values]. now rewrite lookup_insert_eq.
    + apply lookup_insert_eq.
Qed.

Lemma session_expiry_changes_only_by_login_witness :
  let env := Ex.env 1000 (inr ["b"; "a"]) in
  let d := Ex.rec 2000 [] 0 in
  session_record Ex.s Ex.req (Ex.w d) = Some d /\
  (exists d' : AuthSessionData,
     session_record Ex.s Ex.req (GetPermissions env defaultTunables Ex.s Ex.req (Ex.w d)).2
     = Some d' /\
     Token_ d' = Ex.tok /\ ExpireAt d' = 2000) /\
  session_record Ex.s Ex.req (CallbackView env defaultTunables Ex.s Ex.req (Ex.w d)).2
  = Some {| Token_ := Ex.tok; ExpireAt := 86400000001000;
            Permissions := []; PermExpireAt := 0 |}.
Proof.
  cbv zeta.
  pose proof (session_expiry_changes_only_by_login (Ex.env 1000 (inr ["b"; "a"]))
                defaultTunables Ex.s Ex.req (Ex.w (Ex.rec 2000 [] 0)) "a"
                (Ex.rec 2000 [] 0) eq_refl) as (_ & Hget & _ & _ & Hlogin).
  split; [reflexivity|]. split; [exact Hget|].
  exact (Hlogin Ex.tok eq_refl).
Defined.

(* ===================================================================== *)
(** ** The two queries, one after the other *)
(* ===================================================================== *)

Section Agreement.

Variable env : Env.
Variable tun : Tunables.
Variable s : OAuthSession.
Variable r : Request.

(** Where [GetPermissions] returned a list, the session read yields a
    record that holds this list. *)
Lemma GetPermissions_leaves_record (w w1 : World) (perms : list string) :
  GetPermissions env tun s r w = (Ok (inr perms), w1) ->
  exists (p : loc) (d1 : AuthSessionData),
    (session_of r (name s) w1).2 = None /\
    data_of (session_of r (name s) w1).1 = Some p /\
    heap w1 !! p = Some d1 /\
    Permissions d1 = perms.
Proof.
  intros Hrun. pose proof (GetPermissions_query_run env tun s r w) as H.
  rewrite Hrun in H. inversion H as [ | | | | p d Herr Hdata Hp Hvalid Hfresh
                                       | | p d resp perms0 Herr Hdata Hp Hvalid Hstale
                                             Hremote Hdecode ]; subst.
  - exists p, d. unfold fresh_world, checked. cbn [registry].
    rewrite session_of_registered. cbn [heap]. destruct (session_of r (name s) w) as [sess err].
    cbn [fst snd] in *. auto.
  - exists p, (refreshed tun (clock env (S (S (ticks w)))) perms0 d).
    unfold refreshed_world. cbv zeta. rewrite session_of_registered. cbn [heap fst snd].
    split; [reflexivity|]. split.
    + unfold data_of. cbn [Values]. now rewrite lookup_insert_eq.
    + split; [apply lookup_insert_eq | reflexivity].
Qed.

End Agreement.

(** X5: the two queries agree. After [GetPermissions] has returned a
    list, sorted, [HasPermission] in the world it leaves answers [true]
    exactly for the identifiers of that list, without another fetch and
    without any effect, as long as the clock it reads is not after the
    record's [ExpireAt] and [PermExpireAt]. *)
Theorem HasPermission_agrees_with_GetPermissions
    (env : Env) (tun : Tunables) (s : OAuthSession) (r : Request) (w w1 : World)
    (perms : list string) (permission : string) :
  GetPermissions env tun s r w = (Ok (inr perms), w1) ->
  Sorted sort.le perms ->
  (exists d1 : AuthSessionData,
     session_record s r w1 = Some d1 /\
     clock env (ticks w1) <= ExpireAt d1 /\
     clock env (S (ticks w1)) <= PermExpireAt d1) ->
  exists b : bool,
    result_of (HasPermission env tun s r permission) w1 = Ok b /\
    (b = true <-> In permission perms) /\
    fetches_of (HasPermission env tun s r permission) w1 = 0%nat /\
    events_of (HasPermission env tun s r permission) w1 = [] /\
    heap (HasPermission env tun s r permission w1).2 = heap w1.
Proof.
  intros Hrun Hsorted (d1' & Hrec & Hvalid & Hfresh).
  destruct (GetPermissions_leaves_record env tun s r w w1 perms Hrun)
    as (p & d1 & Herr & Hdata & Hp & Hperms).
  assert (d1' = d1).
  { unfold session_record in Hrec.
    rewrite (proj2 (read_Some_iff s r w1 p) (conj Herr Hdata)) in Hrec. congruence. }
  subst d1'. apply Z.ltb_ge in Hvalid, Hfresh.
  destruct (HasPermission_fresh env tun s r w1 p d1 Herr Hdata Hp Hvalid permission Hfresh)
    as (b & Hhas & Hsound & Hcomplete).
  exists b. unfold result_of, fetches_of, events_of. rewrite Hhas.
  cbn [fst snd fresh_world gets trace heap]. rewrite drop_all, <- Hperms.
  split; [reflexivity|]. split.
  - split; [exact Hsound|]. apply Hcomplete. now rewrite Hperms.
  - split; [lia|]. split; reflexivity.
Qed.

Lemma HasPermission_agrees_with_GetPermissions_witness :
  let env := Ex.env 1000 (inr ["b"; "a"]) in
  let w := Ex.w (Ex.rec 2000 [] 0) in
  let w1 := (GetPermissions env defaultTunables Ex.s Ex.req w).2 in
  GetPermissions env defaultTunables Ex.s Ex.req w = (Ok (inr ["a"; "b"]), w1) /\
  Sorted sort.le ["a"; "b"] /\
  exists b : bool,
    result_of (HasPermission env defaultTunables Ex.s Ex.req "b") w1 = Ok b /\
    (b = true <-> In "b" ["a"; "b"]) /\
    fetches_of (HasPermission env defaultTunables Ex.s Ex.req "b") w1 = 0%nat.
Proof.
  cbv zeta.
  assert (Hrun : GetPermissions (Ex.env 1000 (inr ["b"; "a"])) defaultTunables Ex.s Ex.req
                   (Ex.w (Ex.rec 2000 [] 0))
                 = (Ok (inr ["a"; "b"]),
                    (GetPermissions (Ex.env 1000 (inr ["b"; "a"])) defaultTunables Ex.s Ex.req
                       (Ex.w (Ex.rec 2000 [] 0))).2))
    by (vm_compute; reflexivity).
  assert (Hsorted : Sorted sort.le ["a"; "b"]) by (repeat constructor).
  split; [exact Hrun|]. split; [exact Hsorted|].
  destruct (HasPermission_agrees_with_GetPermissions _ _ _ _ _ _ _ "b" Hrun Hsorted)
    as (b & Hres & Hiff & Hfetch & _).
  - exists (Ex.rec 2000 ["a"; "b"] 600000001000).
    split; [vm_compute; reflexivity|]. split; simpl; lia.
  - exists b. auto.
Defined.

(* ===================================================================== *)
(** ** Writing the session and reading it back *)
(* ===================================================================== *)

(** X6: what [issueAuthCookie] writes is what the session read yields
    afterwards. When it returns, a read in the same request yields the
    record just stored; the session keeps its other values; the one
    effect is the save of the session, with the record under ["data"]
    and the other values as they were; records and the sessions of other
    names are untouched. *)
Theorem issueAuthCookie_then_read
    (s : OAuthSession) (r : Request) (w w' : World) (p : loc) :
  issueAuthCookie s r p w = (Ok tt, w') ->
  result_of (getAuthSessionDataFromRequest s r) w' = Ok (Some p) /\
  heap w' = heap w /\
  (forall nm : string, nm <> name s -> registry w' !! nm = registry w !! nm) /\
  exists (sess sess' : Session) (payload : gmap string Dyn),
    result_of (cookieStore_Get r (name s)) w = Ok (sess, None) /\
    registry w' !! name s = Some (sess', None) /\
    Values sess' !! "data" = Some (VAuthSessionData p) /\
    (forall key : string, key <> "data" -> Values sess' !! key = Values sess !! key) /\
    events_of (issueAuthCookie s r p) w = [EvSave (name s) payload] /\
    payload !! "data" = DAuthSessionData <$> heap w !! p /\
    (forall key : string,
       key <> "data" -> payload !! key = snapshot (heap w) (Values sess) !! key).
Proof.
  intros Hrun. unfold events_of. rewrite Hrun.
  rewrite issueAuthCookie_run in Hrun. unfold result_of at 2. rewrite cookieStore_Get_run.
  destruct (session_of r (name s) w) as [sess [e|]] eqn:Hsess; cbn [fst snd] in *;
    [discriminate|].
  injection Hrun as <-. cbn [heap registry trace].
  split.
  { apply read_Some_iff. rewrite session_of_registered. cbn [fst snd].
    split; [reflexivity|]. unfold data_of. cbn [Values]. now rewrite lookup_insert_eq. }
  split; [reflexivity|].
  split.
  { intros nm Hne. now rewrite lookup_insert_ne by congruence. }
  eexists sess, _, _. split; [reflexivity|].
  split; [apply lookup_insert_eq|]. cbn [Values].
  split; [apply lookup_insert_eq|].
  split; [intros key Hne; now rewrite lookup_insert_ne by congruence|].
  split; [now rewrite drop_app_length|].
  split; [apply snapshot_data|].
  intros key Hne. unfold snapshot. rewrite !lookup_omap.
  now rewrite lookup_insert_ne by congruence.
Qed.

Lemma issueAuthCookie_then_read_witness :
  let w := Ex.w (Ex.rec 2000 ["a"] 0) in
  let w' := (issueAuthCookie Ex.s Ex.req_wrongtype 0%nat w).2 in
  issueAuthCookie Ex.s Ex.req_wrongtype 0%nat w = (Ok tt, w') /\
  result_of (getAuthSessionDataFromRequest Ex.s Ex.req_wrongtype) w' = Ok (Some 0%nat).
Proof.
  cbv zeta.
  assert (Hrun : issueAuthCookie Ex.s Ex.req_wrongtype 0%nat (Ex.w (Ex.rec 2000 ["a"] 0))
                 = (Ok tt, (issueAuthCookie Ex.s Ex.req_wrongtype 0%nat
                              (Ex.w (Ex.rec 2000 ["a"] 0))).2))
    by (vm_compute; reflexivity).
  split; [exact Hrun|].
  exact (proj1 (issueAuthCookie_then_read Ex.s Ex.req_wrongtype _ _ 0%nat Hrun)).
Defined.

(* ===================================================================== *)
(** ** The lifetime of a new session *)
(* ===================================================================== *)

Section Lifetime.

(** Up to 9223372036 seconds the int64 product does not wrap. *)
Lemma seconds_in_range (n : Z) :
  -9223372036 <= n <= 9223372036 -> time.seconds n = n * 1000000000.
Proof.
  intros Hn. unfold time.seconds, time.wrap64, time.Second.
  change (2 ^ 63) with 9223372036854775808.
  change (2 ^ 64) with 18446744073709551616.
  rewrite Z.mod_small by lia. lia.
Qed.

(** From there up to 18446744073 seconds it wraps once, to a negative
    duration. *)
Lemma seconds_wrapped (n : Z) :
  9223372037 <= n <= 18446744073 ->
  time.seconds n = n * 1000000000 - 18446744073709551616 /\ time.seconds n < 0.
Proof.
  intros Hn. unfold time.seconds, time.wrap64, time.Second.
  change (2 ^ 63) with 9223372036854775808.
  change (2 ^ 64) with 18446744073709551616.
  assert (Hmod : (n * 1000000000 + 9223372036854775808) mod 18446744073709551616
                 = n * 1000000000 + 9223372036854775808 - 18446744073709551616).
  { symmetry. apply (Z.mod_unique_pos _ _ 1); lia. }
  rewrite Hmod. lia.
Qed.

End Lifetime.

(** X7: the lifetime of a session created by the callback. With
    [SessionExpireTime] between -9223372036 and 9223372036 seconds the
    new record expires exactly that many seconds after the clock reading
    of the callback: [IsExpired] says no at every instant up to and
    including it, and yes after. With [SessionExpireTime] from 9223372037
    to 18446744073 the int64 product wraps, and the record is expired at
    the instant it is created and ever after. *)
Theorem new_session_lifetime
    (env : Env) (tun : Tunables) (s : OAuthSession) (r : Request) (w : World)
    (token : Token) :
  Exchange env (Query_Get r "code") = inr token ->
  let p := fresh (dom (heap w)) in
  let now := clock env (ticks w) in
  let n := SessionExpireTime tun in
  exists d : AuthSessionData,
    heap (CallbackView env tun s r w).2 !! p = Some d /\
    Token_ d = token /\
    (-9223372036 <= n <= 9223372036 ->
     ExpireAt d = now + n * 1000000000 /\
     forall w2 : World,
       heap w2 !! p = Some d ->
       (result_of (IsExpired env p) w2 = Ok false <->
        clock env (ticks w2) <= now + n * 1000000000)) /\
    (9223372037 <= n <= 18446744073 ->
     ExpireAt d < now /\
     forall w2 : World,
       heap w2 !! p = Some d ->
       now <= clock env (ticks w2) ->
       result_of (IsExpired env p) w2 = Ok true).
Proof.
  intros Hex. cbv zeta.
  exists (new_record tun token (clock env (ticks w))).
  split.
  { rewrite CallbackView_run. cbv zeta. rewrite Hex.
    destruct (session_of r (name s) w).2; cbn [snd heap]; apply lookup_insert_eq. }
  split; [reflexivity|].
  unfold new_record, time.Add. cbn [ExpireAt].
  split.
  - intros Hn. rewrite (seconds_in_range _ Hn). split; [reflexivity|].
    intros w2 Hp. unfold result_of. rewrite (IsExpired_run env w2 _ _ Hp).
    cbn [fst ExpireAt]. unfold time.Before.
    destruct (Z.ltb_spec (clock env (ticks w) + SessionExpireTime tun * 1000000000)
                         (clock env (ticks w2))); split; intros H'; try lia;
      try reflexivity; discriminate.
  - intros Hn. destruct (seconds_wrapped _ Hn) as [_ Hneg]. split; [lia|].
    intros w2 Hp Hlater. unfold result_of. rewrite (IsExpired_run env w2 _ _ Hp).
    cbn [fst ExpireAt]. unfold time.Before. f_equal. apply Z.ltb_lt. lia.
Qed.

Lemma new_session_lifetime_witness :
  let env := Ex.env 1000 (inr []) in
  let w := Ex.w (Ex.rec 2000 ["a"] 0) in
  Exchange env (Query_Get Ex.req_nocookie "code") = inr Ex.tok /\
  exists d : AuthSessionData,
    heap (CallbackView env defaultTunables Ex.s Ex.req_nocookie w).2 !! fresh (dom (heap w))
    = Some d /\
    ExpireAt d = 1000 + 86400 * 1000000000.
Proof.
  cbv zeta. split; [reflexivity|].
  destruct (new_session_lifetime (Ex.env 1000 (inr [])) defaultTunables Ex.s Ex.req_nocookie
              (Ex.w (Ex.rec 2000 ["a"] 0)) Ex.tok eq_refl)
    as (d & Hd & _ & Hin & _).
  exists d. split; [exact Hd|].
  apply Hin. simpl. lia.
Defined.

(* ===================================================================== *)
(** ** The first query after a login *)
(* ===================================================================== *)

Section FirstQuery.

Variable env : Env.
Variable tun : Tunables.
Variable s : OAuthSession.
Variable r : Request.

(** With a valid session and a stale cache only two runs are left. *)
Lemma query_run_stale {A} (no : A) (answer : list string -> Res A)
    (w : World) (out : Res A * World) (p : loc) (d : AuthSessionData) :
  query_run env tun s r no answer w out ->
  (session_of r (name s) w).2 = None ->
  data_of (session_of r (name s) w).1 = Some p ->
  heap w !! p = Some d ->
  clock env (ticks w) <= ExpireAt d ->
  PermExpireAt d < clock env (S (ticks w)) ->
  (exists e : error, out = (Panic e, failed_world s r w d)) \/
  (exists perms : list string,
     out = (answer (sort.Strings perms), refreshed_world env tun s r w p d perms)).
Proof.
  intros H Herr Hdata Hp Hvalid Hstale.
  destruct H as [e He | He Hd | p' He Hd Hp' | p' d' He Hd Hp' Hexp
                 | p' d' He Hd Hp' Hv Hf | p' d' e He Hd Hp' Hv Hs Hfail
                 | p' d' resp perms He Hd Hp' Hv Hs Hrem Hdec].
  - congruence.
  - congruence.
  - congruence.
  - assert (p' = p) by congruence. subst. assert (d' = d) by congruence. subst. lia.
  - assert (p' = p) by congruence. subst. assert (d' = d) by congruence. subst. lia.
  - assert (p' = p) by congruence. subst. assert (d' = d) by congruence. subst.
    left. eauto.
  - assert (p' = p) by congruence. subst. assert (d' = d) by congruence. subst.
    right. eauto.
Qed.

End FirstQuery.

(** X8: the first permission query after a login goes to the remote
    endpoint with the token of that login. In the world a successful
    [CallbackView] leaves, [GetPermissions] and [HasPermission] each make
    exactly one GET, to the permissions URL with the exchanged token as
    bearer and as their first effect, provided the clock they read is not
    after the new record's [ExpireAt] and is after the zero time. *)
Theorem first_query_after_login_fetches
    (env : Env) (tun : Tunables) (s : OAuthSession) (r : Request) (w : World)
    (token : Token) (sess : Session) (permission : string) :
  Exchange env (Query_Get r "code") = inr token ->
  result_of (cookieStore_Get r (name s)) w = Ok (sess, None) ->
  let w' := (CallbackView env tun s r w).2 in
  clock env (ticks w') <= clock env (ticks w) + time.seconds (SessionExpireTime tun) ->
  0 < clock env (S (ticks w')) ->
  (fetches_of (GetPermissions env tun s r) w' = 1%nat /\
   exists rest : list Event,
     events_of (GetPermissions env tun s r) w' = EvGet (permissionsURL s) token :: rest) /\
  (fetches_of (HasPermission env tun s r permission) w' = 1%nat /\
   exists rest : list Event,
     events_of (HasPermission env tun s r permission) w'
     = EvGet (permissionsURL s) token :: rest).
Proof.
  intros Hex Hget. cbv zeta. unfold result_of in Hget.
  rewrite cookieStore_Get_run in Hget. cbn [fst] in Hget.
  rewrite CallbackView_run. cbv zeta. rewrite Hex.
  assert (Herr0 : (session_of r (name s) w).2 = None).
  { injection Hget as Hget. now rewrite Hget. }
  rewrite Herr0. cbn [snd ticks].
  set (p := fresh (dom (heap w))).
  set (d := new_record tun token (clock env (ticks w))).
  set (w' := mkWorld _ _ _ _ _).
  intros Hvalid Hstale.
  assert (Herr : (session_of r (name s) w').2 = None).
  { unfold w'. now rewrite session_of_registered. }
  assert (Hdata : data_of (session_of r (name s) w').1 = Some p).
  { unfold w'. rewrite session_of_registered. unfold data_of. cbn [fst Values].
    now rewrite lookup_insert_eq. }
  assert (Hp : heap w' !! p = Some d) by apply lookup_insert_eq.
  assert (Hv : clock env (ticks w') <= ExpireAt d) by exact Hvalid.
  assert (Hs : PermExpireAt d < clock env (S (ticks w'))) by exact Hstale.
  split.
  - destruct (query_run_stale env tun s r _ _ w' _ p d
                (GetPermissions_query_run env tun s r w') Herr Hdata Hp Hv Hs)
      as [(e & Hrun)|(perms & Hrun)];
      unfold fetches_of, events_of; rewrite Hrun;
      cbn [snd failed_world refreshed_world gets trace].
    + split; [lia|]. exists []. now rewrite drop_app_length.
    + split; [lia|]. eexists [_]. now rewrite drop_app_length.
  - destruct (query_run_stale env tun s r _ _ w' _ p d
                (HasPermission_query_run env tun s r permission w') Herr Hdata Hp Hv Hs)
      as [(e & Hrun)|(perms & Hrun)];
      unfold fetches_of, events_of; rewrite Hrun;
      cbn [snd failed_world refreshed_world gets trace].
    + split; [lia|]. exists []. now rewrite drop_app_length.
    + split; [lia|]. eexists [_]. now rewrite drop_app_length.
Qed.

Lemma first_query_after_login_fetches_witness :
  let env := Ex.env 1000 (inr ["b"; "a"]) in
  let w := Ex.w (Ex.rec 2000 ["a"] 0) in
  let w' := (CallbackView env defaultTunables Ex.s Ex.req_nocookie w).2 in
  Exchange env (Query_Get Ex.req_nocookie "code") = inr Ex.tok /\
  result_of (cookieStore_Get Ex.req_nocookie (name Ex.s)) w = Ok (mkSession ∅, None) /\
  clock env (ticks w') <= clock env (ticks w) + time.seconds (SessionExpireTime defaultTunables) /\
  0 < clock env (S (ticks w')) /\
  fetches_of (GetPermissions env defaultTunables Ex.s Ex.req_nocookie) w' = 1%nat.
Proof.
  cbv zeta.
  assert (H1 : clock (Ex.env 1000 (inr ["b"; "a"]))
                 (ticks (CallbackView (Ex.env 1000 (inr ["b"; "a"])) defaultTunables Ex.s
                           Ex.req_nocookie (Ex.w (Ex.rec 2000 ["a"] 0))).2)
               <= clock (Ex.env 1000 (inr ["b"; "a"])) (ticks (Ex.w (Ex.rec 2000 ["a"] 0)))
                  + time.seconds (SessionExpireTime defaultTunables))
    by (vm_compute; discriminate).
  assert (H2 : 0 < clock (Ex.env 1000 (inr ["b"; "a"]))
                 (S (ticks (CallbackView (Ex.env 1000 (inr ["b"; "a"])) defaultTunables Ex.s
                              Ex.req_nocookie (Ex.w (Ex.rec 2000 ["a"] 0))).2)))
    by (vm_compute; reflexivity).
  split; [reflexivity|]. split; [reflexivity|]. split; [exact H1|]. split; [exact H2|].
  exact (proj1 (proj1 (first_query_after_login_fetches (Ex.env 1000 (inr ["b"; "a"]))
                         defaultTunables Ex.s Ex.req_nocookie (Ex.w (Ex.rec 2000 ["a"] 0))
                         Ex.tok (mkSession ∅) "a" eq_refl eq_refl H1 H2))).
Defined.

(* ===================================================================== *)
(** ** The lifetime of a refreshed cache *)
(* ===================================================================== *)

(** X12: how long a refreshed cache lasts. After a refresh at clock
    reading [now], with [PermissionExpireTime] between -9223372036 and
    9223372036 seconds, [IsPermExpired] says no at every instant up to
    and including [now] plus that many seconds, and yes after; with
    [PermissionExpireTime] from 9223372037 to 18446744073 the int64
    product wraps and the cache is stale again from [now] on, so that
    every later query fetches. *)
Theorem refreshed_cache_lifetime
    (env : Env) (tun : Tunables) (s : OAuthSession) (r : Request) (w : World)
    (p : loc) (d : AuthSessionData) (resp : Response) (perms : list string) :
  heap w !! p = Some d ->
  PermExpireAt d < clock env (ticks w) ->
  remote env (gets w) = inr resp ->
  json_Decode env (Body resp) = inr perms ->
  let now := clock env (S (ticks w)) in
  let n := PermissionExpireTime tun in
  exists d' : AuthSessionData,
    heap (ensurePermUpdated env tun s r p w).2 !! p = Some d' /\
    (-9223372036 <= n <= 9223372036 ->
     PermExpireAt d' = now + n * 1000000000 /\
     forall w2 : World,
       heap w2 !! p = Some d' ->
       (result_of (IsPermExpired env p) w2 = Ok false <->
        clock env (ticks w2) <= now + n * 1000000000)) /\
    (9223372037 <= n <= 18446744073 ->
     PermExpireAt d' < now /\
     forall w2 : World,
       heap w2 !! p = Some d' ->
       now <= clock env (ticks w2) ->
       result_of (IsPermExpired env p) w2 = Ok true /\
       fetches_of (ensurePermUpdated env tun s r p) w2 = 1%nat).
Proof.
  intros Hp Hstale Hremote Hdecode. cbv zeta. apply Z.ltb_lt in Hstale.
  exists (refreshed tun (clock env (S (ticks w))) perms d).
  split.
  { rewrite (ensurePermUpdated_run env tun s r w p d Hp).
    unfold time.Before. rewrite Hstale, Hremote, Hdecode. cbv zeta.
    rewrite issueAuthCookie_run.
    match goal with |- context [(session_of ?a ?b ?c).2] =>
      destruct (session_of a b c).2 end; cbn [snd heap]; apply lookup_insert_eq. }
  unfold refreshed, time.Add. cbn [PermExpireAt].
  split.
  - intros Hn. rewrite (seconds_in_range _ Hn). split; [reflexivity|].
    intros w2 Hp2. unfold result_of. rewrite (IsPermExpired_run env w2 _ _ Hp2).
    cbn [fst PermExpireAt]. unfold time.Before.
    destruct (Z.ltb_spec (clock env (S (ticks w)) + PermissionExpireTime tun * 1000000000)
                         (clock env (ticks w2))); split; intros H'; try lia;
      try reflexivity; discriminate.
  - intros Hn. destruct (seconds_wrapped _ Hn) as [_ Hneg]. split; [lia|].
    intros w2 Hp2 Hlater.
    assert (Hb : time.Before
                   (clock env (S (ticks w)) + time.seconds (PermissionExpireTime tun))
                   (clock env (ticks w2)) = true).
    { apply Z.ltb_lt. lia. }
    split.
    + unfold result_of. rewrite (IsPermExpired_run env w2 _ _ Hp2).
      cbn [fst PermExpireAt]. now rewrite Hb.
    + unfold fetches_of. rewrite (ensurePermUpdated_gets env tun s r w2 p _ Hp2).
      cbn [PermExpireAt]. rewrite Hb. lia.
Qed.

Lemma refreshed_cache_lifetime_witness :
  let env := Ex.env 1000 (inr ["b"; "a"]) in
  let w := Ex.w (Ex.rec 2000 [] 0) in
  heap w !! 0%nat = Some (Ex.rec 2000 [] 0) /\
  PermExpireAt (Ex.rec 2000 [] 0) < clock env (ticks w) /\
  remote env (gets w) = inr (mkResponse "body") /\
  json_Decode env "body" = inr ["b"; "a"] /\
  exists d' : AuthSessionData,
    heap (ensurePermUpdated env defaultTunables Ex.s Ex.req 0%nat w).2 !! 0%nat = Some d' /\
    PermExpireAt d' = 1000 + 600 * 1000000000.
Proof.
  cbv zeta.
  assert (Hstale : PermExpireAt (Ex.rec 2000 [] 0) < 1000) by (simpl; lia).
  split; [reflexivity|]. split; [exact Hstale|].
  split; [reflexivity|]. split; [reflexivity|].
  destruct (refreshed_cache_lifetime (Ex.env 1000 (inr ["b"; "a"])) defaultTunables
              Ex.s Ex.req (Ex.w (Ex.rec 2000 [] 0)) 0%nat (Ex.rec 2000 [] 0)
              (mkResponse "body") ["b"; "a"] eq_refl Hstale eq_refl eq_refl)
    as (d' & Hd' & Hin & _).
  exists d'. split; [exact Hd'|]. apply Hin. simpl. lia.
Defined.

(* ===================================================================== *)
(** ** The first revision *)
(* ===================================================================== *)

Section V1Runs.

Variable env : V1.Env.
Variable s : V1.OAuthSession.
Variable r : Request.

Lemma V1_cookieStore_Get_run (nm : string) (w : V1.World) :
  V1.cookieStore_Get r nm w =
  (Ok (V1.session_of r nm w),
   V1.mkWorld (V1.heap w) (<[nm := V1.session_of r nm w]> (V1.registry w))
              (V1.ticks w) (V1.gets w) (V1.trace w)).
Proof.
  unfold V1.cookieStore_Get, V1.session_of.
  destruct (V1.registry w !! nm) as [info|] eqn:Hreg.
  - rewrite insert_id by exact Hreg. now destruct w.
  - reflexivity.
Qed.

Lemma V1_read_run (w : V1.World) :
  V1.getAuthSessionDataFromRequest s r w =
  (match (V1.session_of r (V1.name s) w).2 with
   | Some e => Panic e
   | None => Ok (data_of (V1.session_of r (V1.name s) w).1)
   end,
   V1.mkWorld (V1.heap w)
              (<[V1.name s := V1.session_of r (V1.name s) w]> (V1.registry w))
              (V1.ticks w) (V1.gets w) (V1.trace w)).
Proof.
  unfold V1.getAuthSessionDataFromRequest, V1.bind. rewrite V1_cookieStore_Get_run.
  destruct (V1.session_of r (V1.name s) w) as [sess [e|]]; simpl; [reflexivity|].
  unfold data_of. destruct (Values sess !! "data") as [[p|t|o]|]; reflexivity.
Qed.

Lemma V1_IsExpired_run (w : V1.World) (p : loc) (d : V1.AuthSessionData) :
  V1.heap w !! p = Some d ->
  V1.IsExpired env p w =
  (Ok (time.Before (V1.IssuedAt d + 86400 * 1000000000) (V1.clock env (V1.ticks w))),
   V1.mkWorld (V1.heap w) (V1.registry w) (S (V1.ticks w)) (V1.gets w) (V1.trace w)).
Proof.
  intros Hp. unfold V1.IsExpired, V1.bind, V1.load. now rewrite Hp.
Qed.

(** The check all three of [Secured], [GetPermissions] and
    [HasPermission] start with. *)
Lemma V1_session_check_run {A} (no : A) (k : loc -> V1.M A) (w : V1.World) :
  V1.bind (V1.getAuthSessionDataFromRequest s r)
    (fun data =>
       match data with
       | None => V1.ret no
       | Some p => V1.bind (V1.IsExpired env p)
                     (fun expired => if expired then V1.ret no else k p)
       end) w =
  let reg := <[V1.name s := V1.session_of r (V1.name s) w]> (V1.registry w) in
  let unread := V1.mkWorld (V1.heap w) reg (V1.ticks w) (V1.gets w) (V1.trace w) in
  let checked := V1.mkWorld (V1.heap w) reg (S (V1.ticks w)) (V1.gets w) (V1.trace w) in
  match (V1.session_of r (V1.name s) w).2 with
  | Some e => (Panic e, unread)
  | None =>
      match data_of (V1.session_of r (V1.name s) w).1 with
      | None => (Ok no, unread)
      | Some p =>
          match V1.heap w !! p with
          | None => (Panic nil_deref, unread)
          | Some d =>
              if time.Before (V1.IssuedAt d + 86400 * 1000000000)
                             (V1.clock env (V1.ticks w))
              then (Ok no, checked)
              else k p checked
          end
      end
  end.
Proof.
  unfold V1.bind at 1. rewrite V1_read_run. cbv zeta.
  destruct (V1.session_of r (V1.name s) w).2 as [e|]; [reflexivity|].
  destruct (data_of (V1.session_of r (V1.name s) w).1) as [p|]; [|reflexivity].
  destruct (V1.heap w !! p) as [d|] eqn:Hp.
  - unfold V1.bind. erewrite V1_IsExpired_run by exact Hp.
    cbn [V1.heap V1.registry V1.ticks V1.gets V1.trace].
    destruct (time.Before (V1.IssuedAt d + 86400 * 1000000000)
                          (V1.clock env (V1.ticks w))); reflexivity.
  - unfold V1.IsExpired, V1.bind, V1.load. cbn [V1.heap]. now rewrite Hp.
Qed.

(** What the queries do once the session is found valid: they never
    come back with an answer. *)
Lemma V1_GetPermissions_tail (p : loc) (w : V1.World) :
  exists e : error,
    (V1.bind (V1.load p)
       (fun d =>
          V1.bind (V1.client_Get env (V1.Token_ d) (V1.PermissionsURL s))
            (fun resp =>
               match resp with
               | inl err => V1.panic err
               | inr resp =>
                   match V1.json_Decode_value env (Body resp) with
                   | Some err => V1.panic err
                   | None => V1.ret (inr [] : error + list string)
                   end
               end)) w).1 = Panic e.
Proof.
  unfold V1.bind, V1.load. destruct (V1.heap w !! p) as [d|]; [|eauto].
  unfold V1.client_Get. cbn [fst snd].
  destruct (V1.remote env (V1.gets w)) as [err|resp]; [eauto|].
  unfold V1.json_Decode_value. eauto.
Qed.

Lemma V1_HasPermission_tail (p : loc) (permission : string) (w : V1.World) :
  exists e : error,
    (V1.bind (V1.load p)
       (fun d =>
          match V1.url_Parse env (V1.HasPermissionURL s) with
          | Some err => V1.panic err
          | None =>
              let url := V1.url_with_permission env (V1.HasPermissionURL s) permission in
              V1.bind (V1.client_Get env (V1.Token_ d) url)
                (fun resp =>
                   match resp with
                   | inl err => V1.panic err
                   | inr resp =>
                       match V1.json_Decode_value env (Body resp) with
                       | Some err => V1.panic err
                       | None => V1.ret false
                       end
                   end)
          end) w).1 = Panic e.
Proof.
  unfold V1.bind, V1.load. destruct (V1.heap w !! p) as [d|]; [|eauto].
  destruct (V1.url_Parse env (V1.HasPermissionURL s)) as [err|]; [eauto|].
  cbv zeta. unfold V1.client_Get. cbn [fst snd].
  destruct (V1.remote env (V1.gets w)) as [err|resp]; [eauto|].
  unfold V1.json_Decode_value. eauto.
Qed.

Lemma V1_CallbackView_run (w : V1.World) :
  V1.CallbackView env r w =
  let code := Query_Get r "code" in
  match V1.Exchange env code with
  | inl err =>
      (Ok tt, V1.mkWorld (V1.heap w) (V1.registry w) (V1.ticks w) (V1.gets w)
                         (V1.trace w ++ [V1.EvExchange code; V1.EvError err 400]))
  | inr token =>
      match (V1.session_of r "redeem" w).2 with
      | Some e =>
          (Panic e,
           V1.mkWorld (V1.heap w) (<["redeem" := V1.session_of r "redeem" w]> (V1.registry w))
                      (V1.ticks w) (V1.gets w) (V1.trace w ++ [V1.EvExchange code]))
      | None =>
          let p := fresh (dom (V1.heap w)) in
          let h := <[p := V1.mkAuthSessionData token (V1.clock env (V1.ticks w))]>
                     (V1.heap w) in
          let vals := <["data" := VAuthSessionData p]>
                        (Values (V1.session_of r "redeem" w).1) in
          (Ok tt,
           V1.mkWorld h (<["redeem" := (mkSession vals, None)]> (V1.registry w))
                      (S (V1.ticks w)) (V1.gets w)
                      (V1.trace w ++ [V1.EvExchange code;
                                      V1.EvSave "redeem" (V1.snapshot h vals);
                                      V1.EvRedirect (Query_Get r "state") 303]))
      end
  end.
Proof.
  unfold V1.CallbackView, V1.client_Exchange. cbv zeta.
  unfold V1.bind at 1 2. unfold V1.emit at 1, V1.ret at 1. cbn [fst snd].
  destruct (V1.Exchange env (Query_Get r "code")) as [err|token].
  - unfold V1.http_Error, V1.emit. cbn [V1.heap V1.registry V1.ticks V1.gets V1.trace].
    now rewrite <- app_assoc.
  - unfold V1.issueAuthCookie, V1.bind at 1 2. rewrite V1_cookieStore_Get_run.
    unfold V1.session_of at 1 2. cbn [V1.heap V1.registry V1.ticks V1.gets V1.trace].
    fold (V1.session_of r "redeem" w).
    destruct (V1.session_of r "redeem" w) as [sess [e|]]; cbn [fst snd]; [reflexivity|].
    unfold V1.NewAuthSessionData, V1.bind, V1.time_Now, V1.alloc, V1.set_registry,
      V1.session_Save, V1.http_Redirect, V1.emit.
    cbn [fst snd V1.heap V1.registry V1.ticks V1.gets V1.trace Values].
    now rewrite insert_insert_eq, <- !app_assoc.
Qed.

End V1Runs.

(** X9 (first revision): the guard admits a request if and only if the
    session read yields a record issued at most 86400 seconds before now
    ([now <= IssuedAt + 86400 s], the boundary included); the handler is
    then the only effect. The lifetime is the constant of [IsExpired]. *)
Theorem V1_Secured_invokes_handler_iff
    (env : V1.Env) (s : V1.OAuthSession) (r : Request) (w : V1.World) :
  let read := V1.result_of (V1.getAuthSessionDataFromRequest s r) w in
  let events := V1.events_of (V1.Secured env s r) w in
  (V1.EvServeHTTP ∈ events <->
   exists (p : loc) (d : V1.AuthSessionData),
     read = Ok (Some p) /\ V1.heap w !! p = Some d /\
     V1.clock env (V1.ticks w) <= V1.IssuedAt d + 86400 * 1000000000) /\
  (V1.EvServeHTTP ∈ events -> events = [V1.EvServeHTTP]) /\
  (read = Ok None -> events = [V1.EvRedirect (V1.AuthCodeURL env (RequestURI r)) 303]).
Proof.
  cbv zeta. unfold V1.events_of, V1.result_of.
  unfold V1.Secured, V1.isAuthorized.
  assert (Hrun :
    V1.bind
      (V1.bind (V1.getAuthSessionDataFromRequest s r)
         (fun data =>
            match data with
            | None => V1.ret false
            | Some p => V1.bind (V1.IsExpired env p)
                          (fun expired => if expired then V1.ret false else V1.ret true)
            end))
      (fun ok => if negb ok then V1.startOAuth env r else V1.emit V1.EvServeHTTP) w
    = (let (res, w') :=
         V1.bind (V1.getAuthSessionDataFromRequest s r)
           (fun data =>
              match data with
              | None => V1.ret false
              | Some p => V1.bind (V1.IsExpired env p)
                            (fun expired => if expired then V1.ret false else V1.ret true)
              end) w in
       match res with
       | Ok ok => (if negb ok then V1.startOAuth env r else V1.emit V1.EvServeHTTP) w'
       | Panic e => (Panic e, w')
       end)) by reflexivity.
  rewrite Hrun. clear Hrun.
  rewrite (V1_session_check_run env s r false (fun _ => V1.ret true)), V1_read_run.
  cbv zeta. cbn [fst].
  destruct (V1.session_of r (V1.name s) w).2 as [e|]; cbn [fst snd V1.trace].
  { rewrite drop_all. repeat split.
    - intros H. inversion H.
    - intros (p & d & H & _). discriminate.
    - intros H. inversion H.
    - discriminate. }
  destruct (data_of (V1.session_of r (V1.name s) w).1) as [p|].
  2: { unfold V1.startOAuth, V1.http_Redirect, V1.emit. cbn [negb snd V1.trace].
       rewrite drop_app_length. repeat split.
       - intros H. apply list_elem_of_singleton in H. discriminate.
       - intros (p & d & H & _). discriminate.
       - intros H. apply list_elem_of_singleton in H. discriminate. }
  destruct (V1.heap w !! p) as [d|] eqn:Hp.
  2: { cbn [snd V1.trace]. rewrite drop_all. repeat split.
       - intros H. inversion H.
       - intros (p' & d & H & Hd & _). congruence.
       - intros H. inversion H.
       - discriminate. }
  unfold time.Before.
  destruct (Z.ltb_spec (V1.IssuedAt d + 86400 * 1000000000) (V1.clock env (V1.ticks w)))
    as [Hlt|Hge];
    unfold V1.ret, V1.startOAuth, V1.http_Redirect, V1.emit; cbn [negb snd V1.trace];
    rewrite drop_app_length.
  - repeat split.
    + intros H. apply list_elem_of_singleton in H. discriminate.
    + intros (p' & d' & H & Hd & Hle).
      assert (p' = p) by congruence. subst p'.
      assert (d' = d) by congruence. subst d'. lia.
    + intros H. apply list_elem_of_singleton in H. discriminate.
  - repeat split.
    + intros _. exists p, d. auto.
    + intros _. apply list_elem_of_singleton. reflexivity.
    + discriminate.
Qed.

Lemma V1_Secured_invokes_handler_iff_witness :
  V1.EvServeHTTP ∈ V1.events_of (V1.Secured (V1.ex_env 1000) V1.ex_s Ex.req)
                                (V1.ex_w (V1.mkAuthSessionData Ex.tok 500)).
Proof.
  apply (proj2 (proj1 (V1_Secured_invokes_handler_iff (V1.ex_env 1000) V1.ex_s Ex.req
                         (V1.ex_w (V1.mkAuthSessionData Ex.tok 500))))).
  exists 0%nat, (V1.mkAuthSessionData Ex.tok 500).
  split; [reflexivity|]. split; [reflexivity|]. simpl. lia.
Defined.

(** X10 (first revision): the permission queries never answer. Whatever
    the request and the world, [GetPermissions] does not return a
    permission list and [HasPermission] does not return [true]: without
    a valid session they return the "invalid session" error and [false],
    and with a valid session they panic, on the failure of the GET or on
    the error the JSON decoder returns for a target that is not a
    pointer. *)
Theorem V1_queries_never_answer
    (env : V1.Env) (s : V1.OAuthSession) (r : Request) (w : V1.World)
    (permission : string) :
  (forall perms : list string,
     V1.result_of (V1.GetPermissions env s r) w <> Ok (inr perms)) /\
  V1.result_of (V1.HasPermission env s r permission) w <> Ok true /\
  (forall (p : loc) (d : V1.AuthSessionData),
     V1.result_of (V1.getAuthSessionDataFromRequest s r) w = Ok (Some p) ->
     V1.heap w !! p = Some d ->
     V1.clock env (V1.ticks w) <= V1.IssuedAt d + 86400 * 1000000000 ->
     (exists e : error, V1.result_of (V1.GetPermissions env s r) w = Panic e) /\
     (exists e : error, V1.result_of (V1.HasPermission env s r permission) w = Panic e)).
Proof.
  unfold V1.result_of, V1.GetPermissions, V1.HasPermission.
  rewrite !V1_session_check_run, V1_read_run. cbv zeta. cbn [fst].
  destruct (V1.session_of r (V1.name s) w).2 as [e|].
  { cbn [fst]. split; [intros perms; discriminate|]. split; [discriminate|].
    intros p d H. discriminate. }
  destruct (data_of (V1.session_of r (V1.name s) w).1) as [p|].
  2: { cbn [fst]. split; [intros perms; discriminate|]. split; [discriminate|].
       intros p d H. discriminate. }
  destruct (V1.heap w !! p) as [d|] eqn:Hp.
  2: { cbn [fst]. split; [intros perms; discriminate|]. split; [discriminate|].
       intros p' d H Hd. congruence. }
  unfold time.Before.
  destruct (Z.ltb_spec (V1.IssuedAt d + 86400 * 1000000000) (V1.clock env (V1.ticks w)))
    as [Hlt|Hge].
  { cbn [fst]. split; [intros perms; discriminate|]. split; [discriminate|].
    intros p' d' H Hd Hle. assert (p' = p) by congruence. subst p'.
    assert (d' = d) by congruence. subst d'. lia. }
  match goal with
  | |- context [V1.mkWorld ?h ?g ?t ?n ?tr] => set (w1 := V1.mkWorld h g t n tr)
  end.
  destruct (V1_GetPermissions_tail env s p w1) as [e1 He1].
  destruct (V1_HasPermission_tail env s p permission w1) as [e2 He2].
  cbv zeta in He2.
  split; [|split].
  - intros perms. rewrite He1. discriminate.
  - rewrite He2. discriminate.
  - intros p' d' _ _ _. split; [exists e1; exact He1 | exists e2; exact He2].
Qed.

Lemma V1_queries_never_answer_witness :
  let d := V1.mkAuthSessionData Ex.tok 500 in
  V1.result_of (V1.getAuthSessionDataFromRequest V1.ex_s Ex.req) (V1.ex_w d)
  = Ok (Some 0%nat) /\
  V1.heap (V1.ex_w d) !! 0%nat = Some d /\
  V1.clock (V1.ex_env 1000) (V1.ticks (V1.ex_w d)) <= V1.IssuedAt d + 86400 * 1000000000 /\
  exists e : error,
    V1.result_of (V1.GetPermissions (V1.ex_env 1000) V1.ex_s Ex.req) (V1.ex_w d) = Panic e.
Proof.
  cbv zeta.
  assert (H : V1.clock (V1.ex_env 1000) (V1.ticks (V1.ex_w (V1.mkAuthSessionData Ex.tok 500)))
              <= V1.IssuedAt (V1.mkAuthSessionData Ex.tok 500) + 86400 * 1000000000)
    by (simpl; lia).
  split; [reflexivity|]. split; [reflexivity|]. split; [exact H|].
  exact (proj1 (proj2 (proj2 (V1_queries_never_answer (V1.ex_env 1000) V1.ex_s Ex.req
                                       (V1.ex_w (V1.mkAuthSessionData Ex.tok 500)) "a"))
                  0%nat (V1.mkAuthSessionData Ex.tok 500) eq_refl eq_refl H)).
Defined.

(** X11 (first revision): a login is stored in the session named
    ["redeem"], whatever the name of the guard's session. When the
    exchange succeeds and the session ["redeem"] reads without error, the
    callback saves the new record (token, time of issue) in that session
    and redirects; what the guard's read yields afterwards is unchanged
    if its session has another name, and is the new record only if its
    name is ["redeem"]. *)
Theorem V1_login_is_stored_as_redeem
    (env : V1.Env) (s : V1.OAuthSession) (r : Request) (w : V1.World)
    (token : Token) (sess : Session) :
  V1.Exchange env (Query_Get r "code") = inr token ->
  V1.result_of (V1.cookieStore_Get r "redeem") w = Ok (sess, None) ->
  let run := V1.CallbackView env r in
  let p := fresh (dom (V1.heap w)) in
  V1.result_of run w = Ok tt /\
  V1.heap (run w).2 !! p = Some (V1.mkAuthSessionData token (V1.clock env (V1.ticks w))) /\
  (exists payload : gmap string V1.Dyn,
     V1.events_of run w = [V1.EvExchange (Query_Get r "code"); V1.EvSave "redeem" payload;
                           V1.EvRedirect (Query_Get r "state") 303] /\
     payload !! "data"
     = Some (V1.DAuthSessionData
               (V1.mkAuthSessionData token (V1.clock env (V1.ticks w))))) /\
  (V1.name s <> "redeem" ->
   V1.result_of (V1.getAuthSessionDataFromRequest s r) (run w).2
   = V1.result_of (V1.getAuthSessionDataFromRequest s r) w) /\
  (V1.name s = "redeem" ->
   V1.result_of (V1.getAuthSessionDataFromRequest s r) (run w).2 = Ok (Some p)).
Proof.
  intros Hex Hget. cbv zeta. unfold V1.result_of in Hget.
  rewrite V1_cookieStore_Get_run in Hget. cbn [fst] in Hget.
  assert (Herr : (V1.session_of r "redeem" w).2 = None).
  { injection Hget as Hget. now rewrite Hget. }
  unfold V1.result_of, V1.events_of.
  rewrite V1_CallbackView_run. cbv zeta. rewrite Hex, Herr.
  cbn [fst snd V1.heap V1.trace]. rewrite drop_app_length.
  split; [reflexivity|].
  split; [apply lookup_insert_eq|].
  split.
  { eexists. split; [reflexivity|].
    unfold V1.snapshot. rewrite lookup_omap, lookup_insert_eq. cbn.
    now rewrite lookup_insert_eq. }
  rewrite !V1_read_run. cbn [fst].
  split.
  - intros Hne. unfold V1.session_of. cbn [V1.registry].
    now rewrite lookup_insert_ne by congruence.
  - intros Heq. rewrite Heq. unfold V1.session_of. cbn [V1.registry].
    rewrite lookup_insert_eq. cbn [fst snd]. unfold data_of. cbn [Values].
    now rewrite lookup_insert_eq.
Qed.

Lemma V1_login_is_stored_as_redeem_witness :
  let run := V1.CallbackView (V1.ex_env 1000) Ex.req in
  let w := V1.ex_w (V1.mkAuthSessionData Ex.tok 500) in
  V1.Exchange (V1.ex_env 1000) (Query_Get Ex.req "code") = inr Ex.tok /\
  V1.result_of (V1.cookieStore_Get Ex.req "redeem") w = Ok (mkSession ∅, None) /\
  V1.name V1.ex_s <> "redeem" /\
  V1.result_of (V1.getAuthSessionDataFromRequest V1.ex_s Ex.req) (run w).2
  = V1.result_of (V1.getAuthSessionDataFromRequest V1.ex_s Ex.req) w.
Proof.
  cbv zeta.
  assert (Hne : V1.name V1.ex_s <> "redeem") by discriminate.
  split; [reflexivity|]. split; [reflexivity|]. split; [exact Hne|].
  exact (proj1 (proj2 (proj2 (proj2
           (V1_login_is_stored_as_redeem (V1.ex_env 1000) V1.ex_s Ex.req
              (V1.ex_w (V1.mkAuthSessionData Ex.tok 500)) Ex.tok (mkSession ∅)
              eq_refl eq_refl)))) Hne).
Defined.
